(** * SearchResults: the web.dev search popout

    A shallow embedding of [src/lib/components/SearchResults/index.js]:
    the component's fields, its keyboard navigation, the
    [aria-activedescendant] bookkeeping of [updated] and the markup that
    [render] and [itemsTemplate] describe, followed by the properties the
    specification states about them. *)

From Stdlib Require Import ZArith NArith List String Ascii Bool Lia.
From Stdlib Require Import DecimalString DecimalPos DecimalZ.
Import ListNotations.

Local Open Scope string_scope.
Local Open Scope list_scope.
Local Open Scope Z_scope.

(** ** The JavaScript values the component computes with *)

Module JS.

(** Numbers.  [cursor], array lengths and [map] indices are doubles; the
    component only ever stores an integer in them (a length, an index,
    plus or minus one) or the [NaN] that [%] yields for a zero divisor.
    [Int z] is the integer-valued double [z]; negative zero is identified
    with zero, which [===], property lookup and string conversion (the only
    observers the component has) do not tell apart. *)
Inductive number : Type :=
| Int (z : Z)
| NaN.

Definition add (a b : number) : number :=
  match a, b with
  | Int x, Int y => Int (x + y)
  | _, _ => NaN
  end.

Definition sub (a b : number) : number :=
  match a, b with
  | Int x, Int y => Int (x - y)
  | _, _ => NaN
  end.

(** [a % b]: the remainder takes the sign of the dividend, and a zero
    divisor gives [NaN]. *)
Definition rem (a b : number) : number :=
  match a, b with
  | Int x, Int y => if y =? 0 then NaN else Int (Z.rem x y)
  | _, _ => NaN
  end.

(** [a === b] on numbers: [NaN] is equal to nothing. *)
Definition strict_eq (a b : number) : bool :=
  match a, b with
  | Int x, Int y => x =? y
  | _, _ => false
  end.

(** Strings are sequences of UTF-16 code units. *)
Definition jsstring : Type := list N.

(** A string literal of the source (ASCII only). *)
Definition lit (s : string) : jsstring :=
  map N_of_ascii (list_ascii_of_string s).

Definition jsstring_eqb (a b : jsstring) : bool :=
  if list_eq_dec N.eq_dec a b then true else false.

(** Template-literal conversion [`${n}`] of a number (the decimal form,
    which is what JavaScript prints for integers below 10^21). *)
Definition ToString (n : number) : jsstring :=
  match n with
  | Int z => lit (NilZero.string_of_int (Z.to_int z))
  | NaN => lit "NaN"
  end.

Definition bool_ToString (b : bool) : jsstring :=
  if b then lit "true" else lit "false".

(** [arr.length] as a number. *)
Definition length {A} (arr : list A) : number :=
  Int (Z.of_nat (List.length arr)).

(** [arr[n]] on a dense array: [None] is [undefined].  A negative index,
    an index past the end and [NaN] all name a property the array lacks. *)
Definition get {A} (arr : list A) (n : number) : option A :=
  match n with
  | Int z => if z <? 0 then None else nth_error arr (Z.to_nat z)
  | NaN => None
  end.

(** What a JavaScript call completes with: a value, or a thrown error. *)
Inductive error : Type :=
| TypeError
| URIError.

Inductive completion (A : Type) : Type :=
| Normal (a : A)
| Throw (e : error).
Arguments Normal {A} a.
Arguments Throw {A} e.

Definition bind {A B} (c : completion A) (k : A -> completion B)
  : completion B :=
  match c with
  | Normal a => k a
  | Throw e => Throw e
  end.

(** [arr.map((x, idx) => f(x, idx))] for a callback that may throw: the
    first throw abandons the whole map. *)
Fixpoint map_from {A B} (idx : nat) (f : A -> number -> completion B)
  (arr : list A) : completion (list B) :=
  match arr with
  | [] => Normal []
  | x :: rest =>
      bind (f x (Int (Z.of_nat idx))) (fun y =>
      bind (map_from (S idx) f rest) (fun ys =>
      Normal (y :: ys)))
  end.

Definition map {A B} (f : A -> number -> completion B) (arr : list A)
  : completion (list B) :=
  map_from 0 f arr.

(** White space and line terminators, as [String.prototype.trim] strips. *)
Definition is_whitespace (c : N) : bool :=
  ((9 <=? c) && (c <=? 13)                (* TAB LF VT FF CR *)
   || (c =? 32) || (c =? 160)             (* SP, NBSP *)
   || (c =? 5760)                         (* U+1680 *)
   || ((8192 <=? c) && (c <=? 8202))      (* U+2000 .. U+200A *)
   || (c =? 8232) || (c =? 8233)          (* LS, PS *)
   || (c =? 8239) || (c =? 8287)          (* U+202F, U+205F *)
   || (c =? 12288) || (c =? 65279))%N.    (* U+3000, BOM *)

Fixpoint trimStart (s : jsstring) : jsstring :=
  match s with
  | c :: rest => if is_whitespace c then trimStart rest else s
  | [] => []
  end.

Definition trim (s : jsstring) : jsstring :=
  rev (trimStart (rev (trimStart s))).

(** [encodeURIComponent].  Letters, digits and [- _ . ! ~ * ' ( )] stay;
    every other code point is written as the [%XX] escapes of its UTF-8
    octets; a surrogate without its partner throws [URIError]. *)
Definition uriUnescaped (c : N) : bool :=
  ((65 <=? c) && (c <=? 90) || (97 <=? c) && (c <=? 122)
   || (48 <=? c) && (c <=? 57)
   || (c =? 45) || (c =? 95) || (c =? 46) || (c =? 33) || (c =? 126)
   || (c =? 42) || (c =? 39) || (c =? 40) || (c =? 41))%N.

Definition hexDigit (d : N) : N :=
  (if d <? 10 then 48 + d else 55 + d)%N.

Definition percent (octet : N) : jsstring :=
  [37%N; hexDigit (octet / 16); hexDigit (octet mod 16)].

Definition utf8 (cp : N) : list N :=
  (if cp <? 128 then [cp]
   else if cp <? 2048 then [192 + cp / 64; 128 + cp mod 64]
   else if cp <? 65536 then
     [224 + cp / 4096; 128 + (cp / 64) mod 64; 128 + cp mod 64]
   else
     [240 + cp / 262144; 128 + (cp / 4096) mod 64;
      128 + (cp / 64) mod 64; 128 + cp mod 64])%N.

Definition isLeadingSurrogate (c : N) : bool :=
  ((55296 <=? c) && (c <=? 56319))%N.

Definition isTrailingSurrogate (c : N) : bool :=
  ((56320 <=? c) && (c <=? 57343))%N.

Definition escapeCodePoint (cp : N) : jsstring :=
  List.concat (List.map percent (utf8 cp)).

Fixpoint encodeURIComponent (s : jsstring) : completion jsstring :=
  match s with
  | [] => Normal []
  | c :: rest =>
      if uriUnescaped c then
        bind (encodeURIComponent rest) (fun r => Normal (c :: r))
      else if isLeadingSurrogate c then
        match rest with
        | d :: rest' =>
            if isTrailingSurrogate d then
              bind (encodeURIComponent rest') (fun r =>
              Normal (escapeCodePoint
                        ((c - 55296) * 1024 + (d - 56320) + 65536)%N ++ r))
            else Throw URIError
        | [] => Throw URIError
        end
      else if isTrailingSurrogate c then Throw URIError
      else
        bind (encodeURIComponent rest) (fun r =>
        Normal (escapeCodePoint c ++ r))
  end.

(** [s.replace(/c/g, '')] for a one-character pattern. *)
Definition removeAll (c : N) (s : jsstring) : jsstring :=
  filter (fun x => negb (x =? c)%N) s.

(** [s.startsWith(pat)] *)
Fixpoint startsWith (pat s : jsstring) : bool :=
  match pat, s with
  | [], _ => true
  | p :: pat', c :: s' => (p =? c)%N && startsWith pat' s'
  | _ :: _, [] => false
  end.

(** [s.replace(new RegExp(pat, 'g'), rep)] for a literal, non-empty [pat]:
    matches are taken left to right and do not overlap.  [skip] counts the
    code units of the current match that are still to be passed over. *)
Fixpoint replaceAll_from (skip : nat) (pat rep s : jsstring) : jsstring :=
  match s with
  | [] => []
  | c :: rest =>
      match skip with
      | S k => replaceAll_from k pat rep rest
      | O =>
          if startsWith pat s
          then rep ++ replaceAll_from (List.length pat - 1) pat rep rest
          else c :: replaceAll_from 0 pat rep rest
      end
  end.

Definition replaceAll (pat rep s : jsstring) : jsstring :=
  replaceAll_from 0 pat rep s.

(** [s.includes(pat)] *)
Fixpoint includes (pat s : jsstring) : bool :=
  startsWith pat s
  || match s with
     | [] => false
     | _ :: rest => includes pat rest
     end.

End JS.

Abbreviation number := JS.number.
Abbreviation jsstring := JS.jsstring.
Abbreviation Int := JS.Int.
Abbreviation NaN := JS.NaN.
Abbreviation lit := JS.lit.
Abbreviation completion := JS.completion.
Abbreviation Normal := JS.Normal.
Abbreviation Throw := JS.Throw.

(** ** [lib/utils/escape-html] *)

Module EscapeHtml.

(** Modelled from the spec: the entity [escapeHtml] writes for a
    character of markup. *)
Definition escapeChar (c : N) : jsstring :=
  (if c =? 38 then lit "&amp;"
   else if c =? 60 then lit "&lt;"
   else if c =? 62 then lit "&gt;"
   else if c =? 34 then lit "&quot;"
   else if c =? 39 then lit "&#39;"
   else [c])%N.

(** Modelled from the spec: [escapeHtml] is imported from
    [lib/utils/escape-html], which is not among the sources.  The
    specification asks for a sanitizer that first escapes all markup; the
    characters that can open markup or an entity, or close an attribute,
    are written as their entities. *)
Definition escapeHtml (str : jsstring) : jsstring :=
  List.concat (List.map escapeChar str).

(** Modelled from the spec: [allowHtml] is imported from
    [lib/utils/escape-html], which is not among the sources.  The
    specification has it replace the escaped form of the one allowed tag,
    opening and closing, by the literal tag. *)
Definition allowHtml (str tag : jsstring) : jsstring :=
  JS.replaceAll
    (lit "&lt;/" ++ tag ++ lit "&gt;") (lit "</" ++ tag ++ lit ">")
    (JS.replaceAll
       (lit "&lt;" ++ tag ++ lit "&gt;") (lit "<" ++ tag ++ lit ">") str).

End EscapeHtml.

(** ** The component *)

(** A hit as Algolia returns it.  The component reads [url] and the path
    [_highlightResult.title.value]; each step of that path may be absent
    ([None] is [undefined]). *)
Record HighlightTitle : Type := {
  value : option jsstring
}.

Record HighlightResult : Type := {
  title : option HighlightTitle
}.

Record Hit : Type := {
  url : jsstring;
  _highlightResult : option HighlightResult
}.

(** The fields the constructor initialises, and the one attribute of the
    host element that the component writes. *)
Record SearchResults : Type := {
  hits_ : list Hit;
  showHits : bool;
  cursor : number;
  query : jsstring;
  aria_activedescendant : option jsstring
}.

(** What a method does to the page besides changing the fields. *)
Inductive Effect : Type :=
| ScrollActiveHitIntoView      (* requestUpdate().then(... scrollIntoView()) *)
| LocationAssign (href : jsstring).  (* window.location.href = url *)

Definition set_cursor (c : number) (this : SearchResults) : SearchResults :=
  {| hits_ := hits_ this;
     showHits := showHits this;
     cursor := c;
     query := query this;
     aria_activedescendant := aria_activedescendant this |}.

Definition set_showHits (b : bool) (this : SearchResults) : SearchResults :=
  {| hits_ := hits_ this;
     showHits := b;
     cursor := cursor this;
     query := query this;
     aria_activedescendant := aria_activedescendant this |}.

Definition set_query (q : jsstring) (this : SearchResults) : SearchResults :=
  {| hits_ := hits_ this;
     showHits := showHits this;
     cursor := cursor this;
     query := q;
     aria_activedescendant := aria_activedescendant this |}.

(** [this.setAttribute('aria-activedescendant', v)] *)
Definition setAttribute_activedescendant (v : jsstring)
  (this : SearchResults) : SearchResults :=
  {| hits_ := hits_ this;
     showHits := showHits this;
     cursor := cursor this;
     query := query this;
     aria_activedescendant := Some v |}.

(** [this.removeAttribute('aria-activedescendant')] *)
Definition removeAttribute_activedescendant (this : SearchResults)
  : SearchResults :=
  {| hits_ := hits_ this;
     showHits := showHits this;
     cursor := cursor this;
     query := query this;
     aria_activedescendant := None |}.

(** [set hits(hits)] *)
Definition set_hits (hits : list Hit) (this : SearchResults) : SearchResults :=
  {| hits_ := hits;
     showHits := showHits this;
     cursor := Int (-1);
     query := query this;
     aria_activedescendant := aria_activedescendant this |}.

(** [constructor()]: [this.hits = []] goes through the setter. *)
Definition constructor_ : SearchResults :=
  {| hits_ := [];
     showHits := false;
     cursor := Int (-1);
     query := lit "";
     aria_activedescendant := None |}.

Definition scrollHitIntoView (this : SearchResults)
  : SearchResults * list Effect :=
  (this, [ScrollActiveHitIntoView]).

Definition navigateToHit (hit : Hit) (this : SearchResults)
  : SearchResults * list Effect :=
  (this, [LocationAssign (url hit)]).

Definition firstHit (this : SearchResults) : SearchResults * list Effect :=
  scrollHitIntoView (set_cursor (Int 0) this).

Definition lastHit (this : SearchResults) : SearchResults * list Effect :=
  scrollHitIntoView
    (set_cursor (JS.sub (JS.length (hits_ this)) (Int 1)) this).

Definition nextHit (this : SearchResults) : SearchResults * list Effect :=
  scrollHitIntoView
    (set_cursor
       (JS.rem (JS.add (cursor this) (Int 1)) (JS.length (hits_ this)))
       this).

Definition prevHit (this : SearchResults) : SearchResults * list Effect :=
  scrollHitIntoView
    (if JS.strict_eq (cursor this) (Int (-1))
     then set_cursor (JS.sub (JS.length (hits_ this)) (Int 1)) this
     else
       set_cursor
         (JS.rem
            (JS.add (JS.sub (cursor this) (Int 1)) (JS.length (hits_ this)))
            (JS.length (hits_ this)))
         this).

Definition key_is (key : jsstring) (name : string) : bool :=
  JS.jsstring_eqb key (lit name).

Definition navigate (key : jsstring) (this : SearchResults)
  : SearchResults * list Effect :=
  if key_is key "Home" then firstHit this
  else if key_is key "End" then lastHit this
  else if key_is key "Up" || key_is key "ArrowUp" then prevHit this
  else if key_is key "Down" || key_is key "ArrowDown" then nextHit this
  else if key_is key "Enter" then
    match JS.get (hits_ this) (cursor this) with
    | Some hit => navigateToHit hit this
    | None => (this, [])
    end
  else (this, []).

(** [changedProperties.has(name)] on the map of changed properties, kept
    as its list of entries (property name, previous value). *)
Definition has {V} (changedProperties : list (string * V)) (name : string)
  : bool :=
  existsb (fun entry => String.eqb (fst entry) name) changedProperties.

Definition updated {V} (changedProperties : list (string * V))
  (this : SearchResults) : SearchResults :=
  if negb (has changedProperties "cursor") then this
  else if JS.strict_eq (cursor this) (Int (-1)) then
    removeAttribute_activedescendant this
  else
    setAttribute_activedescendant
      (lit "web-search-popout__link--" ++ JS.ToString (cursor this)) this.

(** *** Markup

    A template is kept as the elements it describes: attributes in source
    order with the holes filled in, static text without the layout white
    space around it, and the [unsafeHTML] directive as a node of its own
    (its string is parsed as markup, not shown as text). *)
#[warnings="-register-all"]
Inductive Node : Type :=
| Element (tag : string) (attributes : list (string * jsstring))
    (children : list Node)
| Text (data : string)
| UnsafeHTML (markup : jsstring).

(** What [render] returns: a template, or the empty string. *)
Inductive Rendered : Type :=
| Template (nodes : list Node)
| EmptyString.

(** Lines 212-218: the title as it is handed to [unsafeHTML]. *)
Definition displayTitle (title : jsstring) : jsstring :=
  JS.removeAll 96
    (EscapeHtml.allowHtml (EscapeHtml.escapeHtml title) (lit "strong")).

(** The callback of [itemsTemplate]. *)
Definition itemTemplate (this : SearchResults) (hit : Hit) (idx : number)
  : completion (list Node) :=
  match _highlightResult hit with
  | None => Throw JS.TypeError       (* property 'title' of undefined *)
  | Some highlight =>
      match title highlight with
      | None => Normal []
      | Some t =>
          match value t with
          | None => Normal []
          | Some [] => Normal []
          | Some v =>
              Normal
                [Element "li" [("class", lit "web-search-popout__item")]
                   [Element "a"
                      [("id", lit "web-search-popout__link--"
                                ++ JS.ToString idx);
                       ("class",
                        lit "web-search-popout__link "
                          ++ (if JS.strict_eq idx (cursor this)
                              then lit "web-search-popout__link--active"
                              else lit ""));
                       ("aria-selected",
                        JS.bool_ToString (JS.strict_eq idx (cursor this)));
                       ("tabindex", lit "-1");
                       ("href", url hit)]
                      [UnsafeHTML (displayTitle v)]]]
          end
      end
  end.

(** [get itemsTemplate()] : one template per hit. *)
Definition itemsTemplate (this : SearchResults)
  : completion (list (list Node)) :=
  JS.map (itemTemplate this) (hits_ this).

Definition render (this : SearchResults) : completion Rendered :=
  (if negb (showHits this) then
     Normal
       (Template
          [Element "div"
             [("id", lit "web-search-popout__list");
              ("role", lit "listbox");
              ("aria-hidden", lit "true")]
             []])
   else if JS.strict_eq (JS.length (hits_ this)) (Int 0) then
     match query this with
     | [] => Normal EmptyString
     | _ :: _ =>
         let query := lit "web.dev " ++ JS.trim (query this) in
         JS.bind (JS.encodeURIComponent query) (fun encoded =>
         let searchUrl := lit "https://google.com/search?q=" ++ encoded in
         Normal
           (Template
              [Element "div" [("class", lit "web-search-popout")]
                 [Element "div" [("class", lit "web-search-popout__heading")]
                    [Text "There are no suggestions for your query&mdash;try";
                     Element "a"
                       [("data-category", lit "web.dev");
                        ("data-label", lit "search, open Google");
                        ("data-action", lit "click");
                        ("target", lit "_blank");
                        ("tabindex", lit "-1");
                        ("href", searchUrl)]
                       [Text "Google search"]]]]))
     end
   else
     JS.bind (itemsTemplate this) (fun items =>
     Normal
       (Template
          [Element "div" [("class", lit "web-search-popout")]
             [Element "div" [("class", lit "web-search-popout__heading")]
                [Text "Results"];
              Element "ul"
                [("id", lit "web-search-popout__list");
                 ("class", lit "web-search-popout__list");
                 ("role", lit "listbox")]
                (List.concat items)]]))).

(** *** Reading the markup *)

(** The value of attribute [name], if the element has it. *)
Fixpoint getAttribute (name : string) (attributes : list (string * jsstring))
  : option jsstring :=
  match attributes with
  | [] => None
  | (n, v) :: rest =>
      if String.eqb n name then Some v else getAttribute name rest
  end.

(** The anchors of a tree, in document order, each with its attributes
    and children. *)
Fixpoint anchors (n : Node) : list (list (string * jsstring) * list Node) :=
  match n with
  | Element tag attributes children =>
      (if String.eqb tag "a" then [(attributes, children)] else [])
        ++ List.concat (List.map anchors children)
  | Text _ => []
  | UnsafeHTML _ => []
  end.

Definition anchors_of (nodes : list Node)
  : list (list (string * jsstring) * list Node) :=
  List.concat (List.map anchors nodes).

(** *** The states the component can be in *)

(** The spec's range invariant, as a test: the cursor is an integer [c]
    with [-1 <= c < length(ResultSet)]. *)
Definition cursor_in_range (this : SearchResults) : bool :=
  match cursor this with
  | Int c => (-1 <=? c) && (c <? Z.of_nat (List.length (hits_ this)))
  | NaN => false
  end.

(** The four movement operations, by name. *)
Inductive Movement : Type :=
| First
| Last
| Next
| Prev.

Definition move (m : Movement) (this : SearchResults) : SearchResults :=
  match m with
  | First => fst (firstHit this)
  | Last => fst (lastHit this)
  | Next => fst (nextHit this)
  | Prev => fst (prevHit this)
  end.

(** [next()] applied [n] times. *)
Definition next_times (n : nat) (this : SearchResults) : SearchResults :=
  Nat.iter n (move Next) this.

(** States reached from the constructor by what the page does with the
    element: assigning [hits], [showHits] and [query], sending keys to
    [navigate], and the [updated] callback. *)
Inductive reachable : SearchResults -> Prop :=
| reach_constructor : reachable constructor_
| reach_hits hits this :
    reachable this -> reachable (set_hits hits this)
| reach_showHits b this :
    reachable this -> reachable (set_showHits b this)
| reach_query q this :
    reachable this -> reachable (set_query q this)
| reach_navigate key this :
    reachable this -> reachable (fst (navigate key this))
| reach_updated (changedProperties : list (string * unit)) this :
    reachable this -> reachable (updated changedProperties this).

(** *** Reading a hit and an item *)

(** The string at [hit._highlightResult.title.value], when every step of
    the path is there. *)
Definition highlightTitle (hit : Hit) : option jsstring :=
  match _highlightResult hit with
  | Some highlight =>
      match title highlight with
      | Some t => value t
      | None => None
      end
  | None => None
  end.

(** The [id] of the link an item template renders, if it renders one. *)
Definition link_id (item : list Node) : option jsstring :=
  match anchors_of item with
  | (attributes, _) :: _ => getAttribute "id" attributes
  | [] => None
  end.

(** *** Example data *)

Definition example_hit (path text : string) : Hit :=
  {| url := lit path;
     _highlightResult := Some {| title := Some {| value := Some (lit text) |} |}
  |}.

(** A hit without the [title] attribute. *)
Definition untitled_hit : Hit :=
  {| url := lit "/untitled";
     _highlightResult := Some {| title := None |} |}.

(** An object with a [url] and nothing else. *)
Definition bare_hit : Hit :=
  {| url := lit "/bare"; _highlightResult := None |}.

Definition example_hits : list Hit :=
  [example_hit "/fast" "<strong>Fa</strong>st load times";
   untitled_hit;
   example_hit "/learn" "`Learn`"].

(** The popout, open, right after three hits arrived. *)
Definition example_popout : SearchResults :=
  set_showHits true (set_hits example_hits constructor_).

(** The popout, open, with no hit for the query "cats". *)
Definition example_no_hits : SearchResults :=
  set_query (lit "cats") (set_showHits true constructor_).

(** *** More ways to read a state and a view *)

(** [prev()] applied [n] times. *)
Definition prev_times (n : nat) (this : SearchResults) : SearchResults :=
  Nat.iter n (move Prev) this.

(** The key names [navigate] has a case for. *)
Definition handled_keys : list jsstring :=
  [lit "Home"; lit "End"; lit "Up"; lit "ArrowUp"; lit "Down";
   lit "ArrowDown"; lit "Enter"].

(** A code unit in the surrogate range. *)
Definition isSurrogate (c : N) : bool :=
  JS.isLeadingSurrogate c || JS.isTrailingSurrogate c.

(** A character [encodeURIComponent] can put out: an unreserved one, or
    the percent sign of an escape. *)
Definition uriSafe (c : N) : bool :=
  JS.uriUnescaped c || (c =? 37)%N.

(** Does the hit pass the guard of [itemsTemplate]: is there a non-empty
    string at [_highlightResult.title.value]? *)
Definition titled (hit : Hit) : bool :=
  match highlightTitle hit with
  | Some (_ :: _) => true
  | _ => false
  end.

(** The hits with their positions, counted from [from]. *)
Definition entries_from (from : nat) (hits : list Hit) : list (nat * Hit) :=
  combine (seq from (List.length hits)) hits.

(** The positions and hits for which [itemsTemplate] renders a link. *)
Definition shown_entries (hits : list Hit) : list (nat * Hit) :=
  filter (fun entry => titled (snd entry)) (entries_from 0 hits).

(** The class names of a [class] attribute value: its parts between
    ASCII white space (TAB, LF, FF, CR, SP). *)
Definition isAsciiWhitespace (c : N) : bool :=
  ((c =? 9) || (c =? 10) || (c =? 12) || (c =? 13) || (c =? 32))%N.

Fixpoint classNames_from (current : jsstring) (s : jsstring)
  : list jsstring :=
  match s with
  | [] => match current with [] => [] | _ :: _ => [rev current] end
  | c :: rest =>
      if isAsciiWhitespace c then
        match current with
        | [] => classNames_from [] rest
        | _ :: _ => rev current :: classNames_from [] rest
        end
      else classNames_from (c :: current) rest
  end.

Definition classNames (s : jsstring) : list jsstring :=
  classNames_from [] s.

(** Does an element with these attributes match the selector [.name]? *)
Definition hasClass (name : string) (attributes : list (string * jsstring))
  : bool :=
  match getAttribute "class" attributes with
  | Some v => existsb (JS.jsstring_eqb (lit name)) (classNames v)
  | None => false
  end.

(** The elements of a tree in document order, each as its tag and
    attributes.  What [unsafeHTML] inserts is not looked into. *)
Fixpoint elements (n : Node) : list (string * list (string * jsstring)) :=
  match n with
  | Element tag attributes children =>
      (tag, attributes) :: List.concat (List.map elements children)
  | Text _ => []
  | UnsafeHTML _ => []
  end.

Definition elements_of (nodes : list Node)
  : list (string * list (string * jsstring)) :=
  List.concat (List.map elements nodes).

(** [renderRoot.querySelectorAll('.' + name)] on a rendered view. *)
Definition querySelectorAll_class (name : string) (view : Rendered)
  : list (string * list (string * jsstring)) :=
  match view with
  | Template nodes =>
      filter (fun element => hasClass name (snd element)) (elements_of nodes)
  | EmptyString => []
  end.

(** [renderRoot.querySelector('.' + name)]: the first match, or [None]
    for [null]. *)
Definition querySelector_class (name : string) (view : Rendered)
  : option (string * list (string * jsstring)) :=
  List.head (querySelectorAll_class name view).

(** The [href]s and [id]s of the links of a view, in document order. *)
Definition hrefs (view : Rendered) : list (option jsstring) :=
  match view with
  | Template nodes =>
      List.map (fun a => getAttribute "href" (fst a)) (anchors_of nodes)
  | EmptyString => []
  end.

Definition ids (view : Rendered) : list (option jsstring) :=
  match view with
  | Template nodes =>
      List.map (fun a => getAttribute "id" (fst a)) (anchors_of nodes)
  | EmptyString => []
  end.

(** What the link rendered for the hit at a position carries: the id
    and the href of the position, the two marks of the active link set
    exactly when the position is the Cursor, and the hit's title as
    markup. *)
Definition renders_entry (this : SearchResults)
  (a : list (string * jsstring) * list Node) (entry : nat * Hit) : Prop :=
  getAttribute "id" (fst a)
  = Some (lit "web-search-popout__link--"
            ++ JS.ToString (Int (Z.of_nat (fst entry))))
  /\ getAttribute "href" (fst a) = Some (url (snd entry))
  /\ getAttribute "aria-selected" (fst a)
     = Some (JS.bool_ToString
               (JS.strict_eq (Int (Z.of_nat (fst entry))) (cursor this)))
  /\ hasClass "web-search-popout__link--active" (fst a)
     = JS.strict_eq (Int (Z.of_nat (fst entry))) (cursor this)
  /\ hasClass "web-search-popout__link" (fst a) = true
  /\ exists v,
       highlightTitle (snd entry) = Some v
       /\ snd a = [UnsafeHTML (displayTitle v)].

(** The elements an item template consists of, given its link. *)
Definition item_elements (a : list (string * jsstring) * list Node)
  : list (string * list (string * jsstring)) :=
  [("li", [("class", lit "web-search-popout__item")]); ("a", fst a)].

(** ** Properties *)

(** *** Arithmetic of the cursor *)

Section Navigation.

Variable this : SearchResults.

Let n : Z := Z.of_nat (List.length (hits_ this)).

Lemma firstHit_cursor : cursor (fst (firstHit this)) = Int 0.
Proof. reflexivity. Qed.

Lemma lastHit_cursor : cursor (fst (lastHit this)) = Int (n - 1).
Proof. reflexivity. Qed.

Lemma nextHit_cursor c :
  cursor this = Int c -> 0 < n ->
  cursor (fst (nextHit this)) = Int (Z.rem (c + 1) n).
Proof.
  intros Hc Hn. unfold nextHit. cbn. rewrite Hc. cbn. fold n.
  destruct (Z.eqb_spec n 0); [lia | reflexivity].
Qed.

Lemma prevHit_cursor_none :
  cursor this = Int (-1) -> cursor (fst (prevHit this)) = Int (n - 1).
Proof. intros Hc. unfold prevHit. rewrite Hc. reflexivity. Qed.

Lemma prevHit_cursor_other c :
  cursor this = Int c -> c <> -1 -> 0 < n ->
  cursor (fst (prevHit this)) = Int (Z.rem (c - 1 + n) n).
Proof.
  intros Hc Hne Hn. unfold prevHit. rewrite Hc. cbn.
  destruct (Z.eqb_spec c (-1)); [contradiction |]. cbn. fold n.
  destruct (Z.eqb_spec n 0); [lia | reflexivity].
Qed.

Lemma move_hits m : hits_ (move m this) = hits_ this.
Proof.
  destruct m; cbn; try reflexivity.
  destruct (JS.strict_eq (cursor this) (Int (-1))); reflexivity.
Qed.

End Navigation.

Lemma cursor_in_range_spec this :
  cursor_in_range this = true <->
  exists c, cursor this = Int c
            /\ -1 <= c < Z.of_nat (List.length (hits_ this)).
Proof.
  unfold cursor_in_range. split.
  - destruct (cursor this) as [c |]; [| discriminate].
    intros H. apply andb_true_iff in H as [H1 H2].
    exists c. split; [reflexivity | lia].
  - intros (c & -> & H). apply andb_true_iff. split; lia.
Qed.

Lemma nonempty_length {A} (l : list A) :
  l <> [] -> 0 < Z.of_nat (List.length l).
Proof. destruct l; [congruence | cbn; lia]. Qed.

(** Every movement lands inside a non-empty list. *)
Lemma move_in_range m this :
  hits_ this <> [] -> cursor_in_range this = true ->
  cursor_in_range (move m this) = true.
Proof.
  intros Hne Hin. apply nonempty_length in Hne.
  apply cursor_in_range_spec in Hin as (c & Hc & Hr).
  apply cursor_in_range_spec. rewrite move_hits.
  destruct m; cbn [move].
  - exists 0. split; [apply firstHit_cursor | lia].
  - eexists. split; [apply lastHit_cursor | lia].
  - eexists. split; [apply (nextHit_cursor _ c); assumption |].
    rewrite Z.rem_mod_nonneg by lia.
    pose proof (Z.mod_pos_bound (c + 1) _ Hne). lia.
  - destruct (Z.eq_dec c (-1)) as [-> | Hc1].
    + eexists. split; [apply prevHit_cursor_none; assumption | lia].
    + eexists. split; [apply (prevHit_cursor_other _ c); assumption |].
      rewrite Z.rem_mod_nonneg by lia.
      pose proof (Z.mod_pos_bound (c - 1 + Z.of_nat (List.length (hits_ this)))
                    _ Hne). lia.
Qed.

(** A key either leaves the fields alone or performs one movement. *)
Lemma navigate_cases key this :
  fst (navigate key this) = this
  \/ exists m, fst (navigate key this) = move m this.
Proof.
  unfold navigate.
  destruct (key_is key "Home"); [right; exists First; reflexivity |].
  destruct (key_is key "End"); [right; exists Last; reflexivity |].
  destruct (key_is key "Up" || key_is key "ArrowUp");
    [right; exists Prev; reflexivity |].
  destruct (key_is key "Down" || key_is key "ArrowDown");
    [right; exists Next; reflexivity |].
  left. destruct (key_is key "Enter"); [| reflexivity].
  destruct (JS.get (hits_ this) (cursor this)); reflexivity.
Qed.

Lemma navigate_hits key this : hits_ (fst (navigate key this)) = hits_ this.
Proof.
  destruct (navigate_cases key this) as [-> | (m & ->)];
    [reflexivity | apply move_hits].
Qed.

Lemma navigate_in_range key this :
  hits_ this <> [] -> cursor_in_range this = true ->
  cursor_in_range (fst (navigate key this)) = true.
Proof.
  intros Hne Hin.
  destruct (navigate_cases key this) as [-> | (m & ->)];
    [assumption | apply move_in_range; assumption].
Qed.

(** The keys and the operations they stand for. *)
Lemma navigate_dispatch this :
  navigate (lit "Home") this = firstHit this
  /\ navigate (lit "End") this = lastHit this
  /\ navigate (lit "Up") this = prevHit this
  /\ navigate (lit "ArrowUp") this = prevHit this
  /\ navigate (lit "Down") this = nextHit this
  /\ navigate (lit "ArrowDown") this = nextHit this
  /\ navigate (lit "Enter") this
     = match JS.get (hits_ this) (cursor this) with
       | Some hit => navigateToHit hit this
       | None => (this, [])
       end.
Proof. repeat split; reflexivity. Qed.

(** On the empty list the modulo has a zero divisor: [next()] always
    leaves [NaN] in the cursor, and so does [prev()] from anything but
    -1. *)
Lemma nextHit_empty this :
  hits_ this = [] -> cursor (fst (nextHit this)) = NaN.
Proof.
  intros H. unfold nextHit. cbn. rewrite H.
  destruct (cursor this); reflexivity.
Qed.

Lemma prevHit_empty this :
  hits_ this = [] ->
  cursor (fst (prevHit this))
  = if JS.strict_eq (cursor this) (Int (-1)) then Int (-1) else NaN.
Proof.
  intros H. unfold prevHit. rewrite H.
  destruct (cursor this) as [c |]; cbn; [| reflexivity].
  destruct (c =? -1); reflexivity.
Qed.

Lemma updated_fields {V} (changedProperties : list (string * V)) this :
  hits_ (updated changedProperties this) = hits_ this
  /\ cursor (updated changedProperties this) = cursor this
  /\ showHits (updated changedProperties this) = showHits this
  /\ query (updated changedProperties this) = query this.
Proof.
  unfold updated.
  destruct (negb (has changedProperties "cursor")); [auto |].
  destruct (JS.strict_eq (cursor this) (Int (-1))); cbn; auto.
Qed.

(** The range invariant holds in every state the component reaches with a
    non-empty list of hits. *)
Lemma reachable_in_range this :
  reachable this -> hits_ this <> [] -> cursor_in_range this = true.
Proof.
  induction 1 as [| hits this _ _ | b this _ IH | q this _ IH
                  | key this _ IH | ch this _ IH]; intros Hne.
  - contradiction Hne. reflexivity.
  - cbn in Hne. apply cursor_in_range_spec. exists (-1).
    split; [reflexivity |]. apply nonempty_length in Hne. cbn. lia.
  - apply IH, Hne.
  - apply IH, Hne.
  - rewrite navigate_hits in Hne. apply navigate_in_range; auto.
  - destruct (updated_fields ch this) as (Hh & Hc & _).
    rewrite Hh in Hne. unfold cursor_in_range. rewrite Hh, Hc.
    apply IH, Hne.
Qed.

(** Stepping forward from an index: [k] steps from [c] end on
    [(c + k) mod n]. *)
Lemma next_times_cursor k this c :
  0 <= c < Z.of_nat (List.length (hits_ this)) ->
  cursor this = Int c ->
  hits_ (next_times k this) = hits_ this
  /\ cursor (next_times k this)
     = Int ((c + Z.of_nat k) mod Z.of_nat (List.length (hits_ this))).
Proof.
  intros Hr Hc. induction k as [| k [IHh IHc]].
  - cbn. split; [reflexivity |].
    rewrite Z.add_0_r, Z.mod_small by lia. assumption.
  - unfold next_times in *. rewrite Nat.iter_succ.
    split; [rewrite move_hits; assumption |].
    cbn [move]. erewrite nextHit_cursor; [| eassumption | rewrite IHh; lia].
    rewrite IHh. f_equal.
    set (n := Z.of_nat (List.length (hits_ this))) in *.
    pose proof (Z.mod_pos_bound (c + Z.of_nat k) n ltac:(lia)).
    rewrite Z.rem_mod_nonneg by lia.
    rewrite Z.add_mod_idemp_l by lia. f_equal. lia.
Qed.

(** Stepping forward from "none selected": the first step enters at index
    0, so [k + 1] steps end on [k mod n]. *)
Lemma next_times_from_none k this :
  hits_ this <> [] -> cursor this = Int (-1) ->
  cursor (next_times (S k) this)
  = Int (Z.of_nat k mod Z.of_nat (List.length (hits_ this))).
Proof.
  intros Hne Hc. apply nonempty_length in Hne.
  induction k as [| k IH].
  - cbn. rewrite Hc. cbn.
    destruct (Z.eqb_spec (Z.of_nat (List.length (hits_ this))) 0); [lia |].
    reflexivity.
  - unfold next_times in *. rewrite Nat.iter_succ.
    assert (Hh : hits_ (Nat.iter (S k) (move Next) this) = hits_ this).
    { clear. induction (S k); [reflexivity |].
      rewrite Nat.iter_succ, move_hits. assumption. }
    cbn [move]. erewrite nextHit_cursor; [| eassumption | rewrite Hh; lia].
    rewrite Hh. f_equal.
    set (n := Z.of_nat (List.length (hits_ this))) in *.
    pose proof (Z.mod_pos_bound (Z.of_nat k) n ltac:(lia)).
    rewrite Z.rem_mod_nonneg by lia.
    rewrite Z.add_mod_idemp_l by lia. f_equal. lia.
Qed.

(** *** Claims about navigation *)

(** C1.  On a non-empty ResultSet, a Cursor with
    [-1 <= Cursor < length(ResultSet)] is taken by each of [first()],
    [last()], [next()] and [prev()] to a Cursor in the same range; the
    ResultSet itself is left as it is. *)
Theorem C1_navigation_preserves_range :
  forall (this : SearchResults) (c : Z) (m : Movement),
    hits_ this <> [] ->
    cursor this = Int c ->
    -1 <= c < Z.of_nat (List.length (hits_ this)) ->
    exists c',
      cursor (move m this) = Int c'
      /\ -1 <= c' < Z.of_nat (List.length (hits_ (move m this))).
Proof.
  intros this c m Hne Hc Hr.
  apply cursor_in_range_spec, move_in_range; [assumption |].
  apply cursor_in_range_spec. exists c. split; assumption.
Qed.

Lemma C1_witness :
  exists c',
    cursor (move Prev example_popout) = Int c'
    /\ -1 <= c' < Z.of_nat (List.length (hits_ (move Prev example_popout))).
Proof.
  apply (C1_navigation_preserves_range example_popout (-1) Prev).
  - discriminate.
  - reflexivity.
  - cbn. lia.
Defined.

(** C2.  Assigning any array through the [hits] setter, whatever the
    Cursor was, stores the array as the ResultSet and sets the Cursor
    to -1. *)
Theorem C2_set_hits_resets_cursor :
  forall (hits : list Hit) (this : SearchResults),
    cursor (set_hits hits this) = Int (-1)
    /\ hits_ (set_hits hits this) = hits.
Proof. intros hits this. split; reflexivity. Qed.

(** C3, as the specification states it, fails from "none selected": one
    hit, Cursor -1 (a state the component reaches by assigning [hits]),
    and one [next()] leaves the Cursor on 0. *)
Lemma C3_counterexample :
  let this := set_hits [example_hit "/fast" "Fast"] constructor_ in
  reachable this
  /\ hits_ this <> []
  /\ cursor this = Int (-1)
  /\ cursor (next_times (List.length (hits_ this)) this) = Int 0
  /\ cursor (next_times (List.length (hits_ this)) this) <> cursor this.
Proof.
  cbv zeta. split; [apply reach_hits, reach_constructor |].
  split; [discriminate |]. split; [reflexivity |].
  split; [reflexivity | discriminate].
Qed.

(** C3, amended.  For a non-empty ResultSet of length n, [next()] applied
    n times brings a Cursor that points at a hit ([0 <= Cursor < n]) back
    to where it was; from -1 the n steps end on the last index, n - 1. *)
Theorem C3_next_cycle :
  forall (this : SearchResults) (c : Z),
    hits_ this <> [] ->
    cursor this = Int c ->
    -1 <= c < Z.of_nat (List.length (hits_ this)) ->
    cursor (next_times (List.length (hits_ this)) this)
    = Int (if c =? -1 then Z.of_nat (List.length (hits_ this)) - 1 else c).
Proof.
  intros this c Hne Hc Hr.
  destruct (Z.eqb_spec c (-1)) as [-> | Hc1].
  - pose proof (nonempty_length _ Hne) as Hlen.
    destruct (List.length (hits_ this)) as [| k] eqn:E; [cbn in Hlen; lia |].
    rewrite <- E at 1.
    replace (next_times (List.length (hits_ this)) this)
      with (next_times (S k) this) by (rewrite E; reflexivity).
    rewrite next_times_from_none by assumption.
    rewrite E. f_equal. rewrite Z.mod_small; lia.
  - destruct (next_times_cursor (List.length (hits_ this)) this c) as [_ ->];
      [lia | assumption |].
    f_equal. rewrite <- (Z.mul_1_l (Z.of_nat (List.length (hits_ this)))) at 1.
    rewrite Z.mod_add by lia. apply Z.mod_small. lia.
Qed.

Lemma C3_witness :
  cursor (next_times 3 (move Last example_popout)) = Int 2
  /\ cursor (next_times 3 example_popout) = Int 2.
Proof.
  split.
  - apply (C3_next_cycle (move Last example_popout) 2);
      [discriminate | reflexivity | cbn; lia].
  - apply (C3_next_cycle example_popout (-1));
      [discriminate | reflexivity | cbn; lia].
Defined.

(** C4.  On a non-empty ResultSet of length n, [prev()] from Cursor -1
    and [prev()] from Cursor 0 both set the Cursor to n - 1, the index of
    the last hit. *)
Theorem C4_prev_enters_and_wraps_at_last :
  forall (this : SearchResults),
    hits_ this <> [] ->
    cursor this = Int (-1) \/ cursor this = Int 0 ->
    cursor (fst (prevHit this))
    = Int (Z.of_nat (List.length (hits_ this)) - 1)
    /\ exists front hit,
         hits_ this = front ++ [hit]
         /\ JS.get (hits_ this) (cursor (fst (prevHit this))) = Some hit.
Proof.
  intros this Hne Hc.
  assert (E : cursor (fst (prevHit this))
              = Int (Z.of_nat (List.length (hits_ this)) - 1)).
  { pose proof (nonempty_length _ Hne) as Hlen.
    destruct Hc as [Hc | Hc].
    - apply prevHit_cursor_none. assumption.
    - rewrite (prevHit_cursor_other this 0) by (assumption || lia).
      f_equal. rewrite Z.rem_mod_nonneg by lia.
      replace (0 - 1 + Z.of_nat (List.length (hits_ this)))
        with (Z.of_nat (List.length (hits_ this)) - 1) by lia.
      apply Z.mod_small. lia. }
  split; [assumption |]. rewrite E. unfold JS.get.
  destruct (hits_ this) as [| hit front] using rev_ind; [congruence |].
  exists front, hit. split; [reflexivity |].
  rewrite length_app. cbn [List.length].
  destruct (Z.ltb_spec (Z.of_nat (List.length front + 1) - 1) 0); [lia |].
  replace (Z.to_nat (Z.of_nat (List.length front + 1) - 1))
    with (List.length front) by lia.
  rewrite nth_error_app2, Nat.sub_diag by lia. reflexivity.
Qed.

Lemma C4_witness :
  cursor (fst (prevHit example_popout)) = Int 2
  /\ cursor (fst (prevHit (move First example_popout))) = Int 2.
Proof.
  split.
  - apply (C4_prev_enters_and_wraps_at_last example_popout);
      [discriminate | left; reflexivity].
  - apply (C4_prev_enters_and_wraps_at_last (move First example_popout));
      [discriminate | right; reflexivity].
Defined.

(** C5.  With the Cursor at -1, or at or past the end of the ResultSet,
    [navigate("Enter")] assigns no location (it has no effect on the page
    at all) and returns the component with every field as it was. *)
Theorem C5_enter_without_hit_is_noop :
  forall (this : SearchResults) (c : Z),
    cursor this = Int c ->
    c = -1 \/ Z.of_nat (List.length (hits_ this)) <= c ->
    navigate (lit "Enter") this = (this, []).
Proof.
  intros this c Hc Hout.
  destruct (navigate_dispatch this) as (_ & _ & _ & _ & _ & _ & ->).
  rewrite Hc. unfold JS.get.
  destruct (Z.ltb_spec c 0); [reflexivity |].
  destruct Hout as [-> | Hge]; [lia |].
  replace (nth_error (hits_ this) (Z.to_nat c)) with (@None Hit);
    [reflexivity |].
  symmetry. apply nth_error_None. lia.
Qed.

Lemma C5_witness :
  navigate (lit "Enter") example_popout = (example_popout, [])
  /\ navigate (lit "Enter") (set_cursor (Int 3) example_popout)
     = (set_cursor (Int 3) example_popout, []).
Proof.
  split.
  - apply (C5_enter_without_hit_is_noop example_popout (-1));
      [reflexivity | left; reflexivity].
  - apply (C5_enter_without_hit_is_noop (set_cursor (Int 3) example_popout) 3);
      [reflexivity | right; cbn; lia].
Defined.

(** C10.  On the empty ResultSet, [navigate("End")] sets the Cursor to -1
    and [navigate("Home")] sets it to 0, an index at which the list has no
    hit; so End changes every Cursor but -1, and Home every Cursor but 0. *)
Theorem C10_home_and_end_on_empty_list :
  forall (this : SearchResults),
    hits_ this = [] ->
    cursor (fst (navigate (lit "End") this)) = Int (-1)
    /\ cursor (fst (navigate (lit "Home") this)) = Int 0
    /\ JS.get (hits_ (fst (navigate (lit "Home") this))) (Int 0) = None
    /\ (cursor (fst (navigate (lit "End") this)) = cursor this
        <-> cursor this = Int (-1))
    /\ (cursor (fst (navigate (lit "Home") this)) = cursor this
        <-> cursor this = Int 0).
Proof.
  intros this Hempty.
  assert (HE : cursor (fst (navigate (lit "End") this)) = Int (-1)).
  { change (navigate (lit "End") this) with (lastHit this).
    rewrite lastHit_cursor, Hempty. reflexivity. }
  assert (HH : cursor (fst (navigate (lit "Home") this)) = Int 0)
    by reflexivity.
  split; [assumption |]. split; [assumption |].
  split; [rewrite navigate_hits, Hempty; reflexivity |].
  rewrite HE, HH. split; split; congruence.
Qed.

Lemma C10_witness :
  cursor (fst (navigate (lit "End") constructor_)) = Int (-1)
  /\ cursor (fst (navigate (lit "Home") constructor_)) = Int 0
  /\ cursor (fst (navigate (lit "Home") constructor_)) <> cursor constructor_
  /\ cursor (fst (navigate (lit "End") (move First constructor_)))
     <> cursor (move First constructor_).
Proof.
  destruct (C10_home_and_end_on_empty_list constructor_ eq_refl)
    as (HE & HH & _ & _ & _).
  destruct (C10_home_and_end_on_empty_list (move First constructor_) eq_refl)
    as (HE' & _ & _ & _ & _).
  split; [exact HE |]. split; [exact HH |].
  split; [rewrite HH | rewrite HE']; discriminate.
Defined.

(** *** Strings and numbers *)

Lemma lit_inj (s t : string) : lit s = lit t -> s = t.
Proof.
  unfold lit. intros H.
  rewrite <- (string_of_list_ascii_of_string s).
  rewrite <- (string_of_list_ascii_of_string t). f_equal.
  revert H. generalize (list_ascii_of_string t) as l2.
  induction (list_ascii_of_string s) as [| a l1 IH]; intros [| b l2] H;
    try discriminate; [reflexivity |].
  cbn in H. injection H as Hab Hl. f_equal; [| apply IH, Hl].
  rewrite <- (ascii_N_embedding a), <- (ascii_N_embedding b), Hab.
  reflexivity.
Qed.

Lemma to_int_printable (z : Z) :
  NilZero.int_of_string (NilZero.string_of_int (Z.to_int z))
  = Some (Z.to_int z).
Proof.
  apply NilZero.isi; destruct z as [| p | p]; cbn; try discriminate;
    intros H; injection H as H; revert H; apply Unsigned.to_uint_nonnil.
Qed.

(** Distinct numbers print differently, so an [id] names one position. *)
Lemma ToString_inj (a : number) (z : Z) :
  JS.ToString a = JS.ToString (Int z) -> a = Int z.
Proof.
  destruct a as [y |]; cbn [JS.ToString]; intros H; apply lit_inj in H.
  - f_equal. apply to_int_inj.
    pose proof (to_int_printable y) as Hy. rewrite H in Hy.
    rewrite to_int_printable in Hy. congruence.
  - pose proof (to_int_printable z) as Hz. rewrite <- H in Hz.
    discriminate Hz.
Qed.

Lemma Some_app_inv {A} (p a b : list A) :
  Some (p ++ a) = Some (p ++ b) -> a = b.
Proof. intros H. injection H as H. apply app_inv_head in H. exact H. Qed.

Lemma removeAll_absent (c : N) (s : jsstring) : ~ In c (JS.removeAll c s).
Proof.
  unfold JS.removeAll. intros H. apply filter_In in H as [_ H].
  rewrite N.eqb_refl in H. discriminate.
Qed.

Lemma length_is_zero {A} (arr : list A) :
  JS.strict_eq (JS.length arr) (Int 0) = match arr with [] => true | _ => false end.
Proof. destruct arr; reflexivity. Qed.

(** *** [Array.prototype.map] with a callback that may throw *)

Lemma map_from_Normal {A B} (f : A -> number -> completion B) arr :
  forall k ys,
    JS.map_from k f arr = Normal ys ->
    List.length ys = List.length arr
    /\ forall i x, nth_error arr i = Some x ->
         exists y, nth_error ys i = Some y
                   /\ f x (Int (Z.of_nat (k + i))) = Normal y.
Proof.
  induction arr as [| a arr IH]; intros k ys H; cbn in H.
  - injection H as <-. split; [reflexivity |].
    intros [| i] x Hx; discriminate.
  - destruct (f a (Int (Z.of_nat k))) as [y |] eqn:Ey; [| discriminate].
    cbn in H.
    destruct (JS.map_from (S k) f arr) as [ys' |] eqn:Eys; [| discriminate].
    cbn in H. injection H as <-.
    destruct (IH _ _ Eys) as [Hlen Hnth].
    split; [cbn; congruence |].
    intros [| i] x Hx; cbn in Hx.
    + injection Hx as <-. exists y. rewrite Nat.add_0_r. split; [reflexivity | assumption].
    + destruct (Hnth i x Hx) as (y' & Hy' & Hf).
      exists y'. split; [assumption |].
      replace (k + S i)%nat with (S k + i)%nat by lia. assumption.
Qed.

Lemma map_from_total {A B} (f : A -> number -> completion B) arr :
  (forall x idx, In x arr -> exists y, f x idx = Normal y) ->
  forall k, exists ys, JS.map_from k f arr = Normal ys.
Proof.
  induction arr as [| a arr IH]; intros Hf k; cbn.
  - eexists. reflexivity.
  - destruct (Hf a (Int (Z.of_nat k)) (or_introl eq_refl)) as (y & ->).
    destruct (IH (fun x idx Hx => Hf x idx (or_intror Hx)) (S k)) as (ys & ->).
    eexists. reflexivity.
Qed.

(** *** One item *)

(** What the callback of [itemsTemplate] makes of a hit: it throws when
    there is no [_highlightResult] to read [title] from, returns the empty
    template when the title or its value is missing or empty, and a list
    item with one link otherwise. *)
Lemma itemTemplate_spec this hit idx :
  match _highlightResult hit with
  | None => itemTemplate this hit idx = Throw JS.TypeError
  | Some _ =>
      match highlightTitle hit with
      | Some (c :: v) =>
          exists attributes,
            itemTemplate this hit idx
            = Normal
                [Element "li" [("class", lit "web-search-popout__item")]
                   [Element "a" attributes
                      [UnsafeHTML (displayTitle (c :: v))]]]
            /\ getAttribute "id" attributes
               = Some (lit "web-search-popout__link--" ++ JS.ToString idx)
            /\ getAttribute "aria-selected" attributes
               = Some (JS.bool_ToString (JS.strict_eq idx (cursor this)))
            /\ getAttribute "tabindex" attributes = Some (lit "-1")
            /\ getAttribute "href" attributes = Some (url hit)
      | _ => itemTemplate this hit idx = Normal []
      end
  end.
Proof.
  unfold itemTemplate, highlightTitle.
  destruct (_highlightResult hit) as [[[[[[| c v] |]] |]] |];
    try reflexivity.
  eexists. split; [reflexivity |]. repeat split; reflexivity.
Qed.

(** An item that is not the empty template is the link of its position. *)
Lemma itemTemplate_link_id this hit idx item :
  itemTemplate this hit idx = Normal item -> item <> [] ->
  link_id item = Some (lit "web-search-popout__link--" ++ JS.ToString idx).
Proof.
  intros H Hne. pose proof (itemTemplate_spec this hit idx) as S.
  destruct (_highlightResult hit); [| congruence].
  destruct (highlightTitle hit) as [[| c v] |]; try congruence.
  destruct S as (attributes & E & Hid & _). rewrite E in H.
  injection H as <-. unfold link_id, anchors_of. cbn. exact Hid.
Qed.

(** *** The three views *)

Lemma render_hidden this :
  showHits this = false ->
  render this
  = Normal
      (Template
         [Element "div"
            [("id", lit "web-search-popout__list");
             ("role", lit "listbox");
             ("aria-hidden", lit "true")]
            []]).
Proof. intros H. unfold render. rewrite H. reflexivity. Qed.

(** No hits, some query: the "no suggestions" view holds exactly one
    link, to a Google search for the encoded, trimmed query behind the
    prefix "web.dev ". *)
Lemma render_no_suggestions this encoded :
  showHits this = true -> hits_ this = [] -> query this <> [] ->
  JS.encodeURIComponent (lit "web.dev " ++ JS.trim (query this))
  = Normal encoded ->
  exists nodes attributes,
    render this = Normal (Template nodes)
    /\ anchors_of nodes = [(attributes, [Text "Google search"])]
    /\ getAttribute "href" attributes
       = Some (lit "https://google.com/search?q=" ++ encoded)
    /\ getAttribute "target" attributes = Some (lit "_blank").
Proof.
  intros Hshow Hhits Hq Henc. unfold render.
  rewrite Hshow, Hhits. cbn [negb JS.length List.length JS.strict_eq Z.of_nat].
  cbn [Z.eqb]. destruct (query this) as [| c q] eqn:E; [congruence |].
  rewrite Henc. cbn [JS.bind].
  eexists. eexists. split; [reflexivity |]. repeat split; reflexivity.
Qed.

(** Some hits: the list view holds the items, one after the other. *)
Lemma render_results this items :
  showHits this = true -> hits_ this <> [] ->
  itemsTemplate this = Normal items ->
  exists nodes,
    render this = Normal (Template nodes)
    /\ anchors_of nodes = anchors_of (List.concat items).
Proof.
  intros Hshow Hhits Hitems. unfold render.
  rewrite Hshow, length_is_zero. cbn [negb].
  destruct (hits_ this) as [| h l] eqn:E; [congruence |].
  rewrite Hitems. cbn [JS.bind].
  eexists. split; [reflexivity |].
  unfold anchors_of. cbn. rewrite !app_nil_r. reflexivity.
Qed.

(** *** Claims about rendering *)

(** C6.  The title transformation of [itemsTemplate] turns
    "foo <strong>bar</strong> <script>baz</script>" into markup in which
    the strong tag stands as a tag and the script tag only as escaped
    text, and that markup is what the hit's link shows; and whatever the
    title, the transformed string holds no backtick. *)
Theorem C6_title_markup :
  let shown :=
    displayTitle (lit "foo <strong>bar</strong> <script>baz</script>") in
  shown = lit "foo <strong>bar</strong> &lt;script&gt;baz&lt;/script&gt;"
  /\ JS.includes (lit "<strong>") shown = true
  /\ JS.includes (lit "</strong>") shown = true
  /\ JS.includes (lit "<script") shown = false
  /\ JS.includes (lit "</script") shown = false
  /\ JS.includes (lit "&lt;script&gt;") shown = true
  /\ (forall this idx,
        exists attributes,
          itemTemplate this
            (example_hit "/x" "foo <strong>bar</strong> <script>baz</script>")
            idx
          = Normal
              [Element "li" [("class", lit "web-search-popout__item")]
                 [Element "a" attributes [UnsafeHTML shown]]])
  /\ (forall title : jsstring, ~ In 96%N (displayTitle title)).
Proof.
  cbv zeta. repeat split; try (vm_compute; reflexivity).
  - intros this idx. eexists. reflexivity.
  - intros title. apply removeAll_absent.
Qed.

(** C7.  When [updated] sees that [cursor] changed, it removes
    [aria-activedescendant] if the Cursor is -1 and otherwise sets it to
    "web-search-popout__link--" followed by the Cursor; the link rendered
    at position idx has that prefix followed by idx as its id, so the
    attribute names the link at a position exactly when the Cursor is
    that position. *)
Theorem C7_activedescendant_follows_cursor :
  forall (V : Type) (changedProperties : list (string * V))
         (this : SearchResults),
    has changedProperties "cursor" = true ->
    aria_activedescendant (updated changedProperties this)
    = (if JS.strict_eq (cursor this) (Int (-1)) then None
       else Some (lit "web-search-popout__link--"
                    ++ JS.ToString (cursor this)))
    /\ forall (items : list (list Node)) (idx : nat) (item : list Node),
         itemsTemplate this = Normal items ->
         nth_error items idx = Some item -> item <> [] ->
         link_id item
         = Some (lit "web-search-popout__link--"
                   ++ JS.ToString (Int (Z.of_nat idx)))
         /\ (link_id item
             = aria_activedescendant (updated changedProperties this)
             <-> cursor this = Int (Z.of_nat idx)).
Proof.
  intros V changedProperties this Hhas.
  assert (Haria :
    aria_activedescendant (updated changedProperties this)
    = (if JS.strict_eq (cursor this) (Int (-1)) then None
       else Some (lit "web-search-popout__link--"
                    ++ JS.ToString (cursor this)))).
  { unfold updated. rewrite Hhas. cbn [negb].
    destruct (JS.strict_eq (cursor this) (Int (-1))); reflexivity. }
  split; [exact Haria |].
  intros items idx item Hitems Hnth Hne.
  assert (Hid : link_id item
                = Some (lit "web-search-popout__link--"
                          ++ JS.ToString (Int (Z.of_nat idx)))).
  { destruct (map_from_Normal _ _ _ _ Hitems) as [Hlen Hall].
    destruct (nth_error (hits_ this) idx) as [hit |] eqn:Ehit.
    - destruct (Hall idx hit Ehit) as (item' & Hitem' & Hf).
      rewrite Hnth in Hitem'. injection Hitem' as <-.
      apply (itemTemplate_link_id this hit); assumption.
    - apply nth_error_None in Ehit.
      assert (idx < List.length items)%nat
        by (apply nth_error_Some; congruence).
      lia. }
  split; [exact Hid |].
  rewrite Haria, Hid. split.
  - destruct (JS.strict_eq (cursor this) (Int (-1))); [discriminate |].
    intros H. apply Some_app_inv in H.
    symmetry in H. apply ToString_inj in H. exact H.
  - intros ->. cbn [JS.strict_eq].
    destruct (Z.eqb_spec (Z.of_nat idx) (-1)); [lia | reflexivity].
Qed.

Lemma C7_witness :
  exists items,
    itemsTemplate (move Last example_popout) = Normal items
    /\ aria_activedescendant
         (updated [("cursor", Int (-1))] (move Last example_popout))
       = Some (lit "web-search-popout__link--2")
    /\ option_map link_id (nth_error items 2)
       = Some (aria_activedescendant
                 (updated [("cursor", Int (-1))] (move Last example_popout)))
    /\ aria_activedescendant
         (updated [("hits_", Int 0); ("cursor", Int 2)] example_popout)
       = None.
Proof.
  destruct (itemsTemplate (move Last example_popout)) as [items |] eqn:E;
    [| discriminate E].
  destruct (C7_activedescendant_follows_cursor _ [("cursor", Int (-1))]
              (move Last example_popout) eq_refl) as [Haria Hlinks].
  destruct (C7_activedescendant_follows_cursor _
              [("hits_", Int 0); ("cursor", Int 2)]
              example_popout eq_refl) as [Haria' _].
  exists items. split; [reflexivity |]. split; [exact Haria |].
  split; [| exact Haria'].
  specialize (Hlinks items 2%nat).
  vm_compute in E. injection E as <-.
  cbn [nth_error option_map]. refine (f_equal Some _).
  apply Hlinks; solve [reflexivity | discriminate].
Defined.

(** C8.  With no hits, the popout shown and the query "cats", the view
    holds one link; its href is the Google search URL whose [q] parameter
    is the URL-encoding of "web.dev cats", and its target is a new
    browsing context. *)
Theorem C8_fallback_link :
  forall (this : SearchResults),
    showHits this = true ->
    hits_ this = [] ->
    query this = lit "cats" ->
    exists nodes attributes children,
      render this = Normal (Template nodes)
      /\ anchors_of nodes = [(attributes, children)]
      /\ JS.encodeURIComponent (lit "web.dev cats")
         = Normal (lit "web.dev%20cats")
      /\ getAttribute "href" attributes
         = Some (lit "https://google.com/search?q=web.dev%20cats")
      /\ getAttribute "target" attributes = Some (lit "_blank").
Proof.
  intros this Hshow Hhits Hq.
  destruct (render_no_suggestions this (lit "web.dev%20cats") Hshow Hhits)
    as (nodes & attributes & Hr & Ha & Hhref & Htarget).
  - rewrite Hq. discriminate.
  - rewrite Hq. reflexivity.
  - exists nodes, attributes, [Text "Google search"].
    repeat split; assumption || reflexivity.
Qed.

Lemma C8_witness :
  exists nodes attributes children,
    render example_no_hits = Normal (Template nodes)
    /\ anchors_of nodes = [(attributes, children)]
    /\ JS.encodeURIComponent (lit "web.dev cats")
       = Normal (lit "web.dev%20cats")
    /\ getAttribute "href" attributes
       = Some (lit "https://google.com/search?q=web.dev%20cats")
    /\ getAttribute "target" attributes = Some (lit "_blank").
Proof.
  apply (C8_fallback_link example_no_hits); reflexivity.
Defined.

(** C9, as the specification states it, fails for a hit that has no
    [_highlightResult] at all: its highlight title is missing, and reading
    [title] from [undefined] throws, so neither [itemsTemplate] nor
    [render] returns. *)
Lemma C9_counterexample :
  let this := set_showHits true (set_hits [bare_hit] constructor_) in
  highlightTitle bare_hit = None
  /\ itemsTemplate this = Throw JS.TypeError
  /\ render this = Throw JS.TypeError.
Proof. cbv zeta. repeat split; reflexivity. Qed.

(** C9, amended.  When every hit of the ResultSet carries a
    [_highlightResult] object, rendering the hits does not fail:
    [itemsTemplate] returns one template per hit, the empty template for
    a hit whose highlight title or its value is missing or empty and a
    single link to the hit's url otherwise, and [render] returns a view
    whose links are those of the items. *)
Theorem C9_untitled_hits_are_skipped :
  forall (this : SearchResults),
    (forall hit, In hit (hits_ this) -> _highlightResult hit <> None) ->
    exists items,
      itemsTemplate this = Normal items
      /\ List.length items = List.length (hits_ this)
      /\ (forall idx hit,
            nth_error (hits_ this) idx = Some hit ->
            exists item,
              nth_error items idx = Some item
              /\ match highlightTitle hit with
                 | Some (c :: v) =>
                     exists attributes,
                       anchors_of item
                       = [(attributes, [UnsafeHTML (displayTitle (c :: v))])]
                       /\ getAttribute "href" attributes = Some (url hit)
                 | _ => item = []
                 end)
      /\ (hits_ this <> [] ->
          exists nodes,
            render this = Normal (Template nodes)
            /\ (showHits this = true ->
                anchors_of nodes = anchors_of (List.concat items))).
Proof.
  intros this Hall.
  destruct (map_from_total (itemTemplate this) (hits_ this)) with (k := 0%nat)
    as (items & Hitems).
  { intros hit idx Hin. specialize (Hall hit Hin).
    pose proof (itemTemplate_spec this hit idx) as S.
    destruct (_highlightResult hit); [| congruence].
    destruct (highlightTitle hit) as [[| c v] |];
      try (eexists; exact S).
    destruct S as (attributes & E & _). eexists. exact E. }
  exists items. split; [exact Hitems |].
  destruct (map_from_Normal _ _ _ _ Hitems) as [Hlen Hnth].
  split; [exact Hlen |]. split.
  - intros idx hit Hhit.
    destruct (Hnth idx hit Hhit) as (item & Hitem & Hf).
    exists item. split; [exact Hitem |].
    pose proof (itemTemplate_spec this hit (Int (Z.of_nat (0 + idx)))) as S.
    assert (Hin : In hit (hits_ this)) by (eapply nth_error_In; eassumption).
    specialize (Hall hit Hin).
    destruct (_highlightResult hit); [| congruence].
    destruct (highlightTitle hit) as [[| c v] |]; try congruence.
    destruct S as (attributes & E & _ & _ & _ & Hhref).
    rewrite E in Hf. injection Hf as <-.
    exists attributes. split; [reflexivity | exact Hhref].
  - intros Hne. destruct (showHits this) eqn:Hshow.
    + destruct (render_results this items Hshow Hne Hitems) as (nodes & Hr & Ha).
      exists nodes. split; [exact Hr | intros _; exact Ha].
    + eexists. split; [apply render_hidden; exact Hshow | discriminate].
Qed.

Lemma C9_witness :
  exists items,
    itemsTemplate example_popout = Normal items
    /\ nth_error items 1 = Some []
    /\ option_map link_id (nth_error items 2)
       = Some (Some (lit "web-search-popout__link--2"))
    /\ exists nodes, render example_popout = Normal (Template nodes).
Proof.
  destruct (C9_untitled_hits_are_skipped example_popout)
    as (items & Hitems & _ & Hnth & Hrender).
  - intros hit [<- | [<- | [<- | []]]]; discriminate.
  - exists items. split; [exact Hitems |].
    vm_compute in Hitems. injection Hitems as <-.
    split; [reflexivity |]. split; [reflexivity |].
    destruct Hrender as (nodes & Hr & _); [discriminate |].
    exists nodes. exact Hr.
Defined.

(** ** Further properties of the component *)

(** *** Keys *)

Lemma jsstring_eqb_spec (a b : jsstring) :
  JS.jsstring_eqb a b = true <-> a = b.
Proof.
  unfold JS.jsstring_eqb.
  destruct (list_eq_dec N.eq_dec a b); split; congruence.
Qed.

Lemma key_is_false key name : key <> lit name -> key_is key name = false.
Proof.
  intros H. unfold key_is.
  destruct (JS.jsstring_eqb key (lit name)) eqn:E; [| reflexivity].
  apply jsstring_eqb_spec in E. contradiction.
Qed.

(** Whatever the key, [navigate] returns either no effect, one scroll
    request after a movement, or one location assignment without any
    change of the fields. *)
Lemma navigate_effects key this :
  (navigate key this = (this, []))
  \/ (exists m, navigate key this = (move m this, [ScrollActiveHitIntoView]))
  \/ (key = lit "Enter"
      /\ exists hit,
           JS.get (hits_ this) (cursor this) = Some hit
           /\ navigate key this = (this, [LocationAssign (url hit)])).
Proof.
  unfold navigate.
  destruct (key_is key "Home"); [right; left; exists First; reflexivity |].
  destruct (key_is key "End"); [right; left; exists Last; reflexivity |].
  destruct (key_is key "Up" || key_is key "ArrowUp");
    [right; left; exists Prev; reflexivity |].
  destruct (key_is key "Down" || key_is key "ArrowDown");
    [right; left; exists Next; reflexivity |].
  destruct (key_is key "Enter") eqn:E; [| left; reflexivity].
  apply jsstring_eqb_spec in E.
  destruct (JS.get (hits_ this) (cursor this)) as [hit |];
    [| left; reflexivity].
  right; right. split; [exact E |]. exists hit. split; reflexivity.
Qed.

Lemma move_frame m this :
  hits_ (move m this) = hits_ this
  /\ showHits (move m this) = showHits this
  /\ query (move m this) = query this
  /\ aria_activedescendant (move m this) = aria_activedescendant this.
Proof.
  destruct m; cbn; auto.
  destruct (JS.strict_eq (cursor this) (Int (-1))); cbn; auto.
Qed.

(** X1.  A key that [navigate] has no case for does nothing: the fields
    stay as they are and the page sees no effect. *)
Theorem X1_unhandled_key_is_noop :
  forall (key : jsstring) (this : SearchResults),
    ~ In key handled_keys ->
    navigate key this = (this, []).
Proof.
  intros key this Hkey. unfold handled_keys in Hkey. cbn [In] in Hkey.
  unfold navigate.
  rewrite !key_is_false by (intros ->; apply Hkey; tauto).
  reflexivity.
Qed.

Lemma X1_witness :
  navigate (lit "Tab") (move First example_popout)
  = (move First example_popout, []).
Proof.
  apply (X1_unhandled_key_is_noop (lit "Tab") (move First example_popout)).
  unfold handled_keys. cbn [In].
  intros [H | [H | [H | [H | [H | [H | [H | []]]]]]]]; discriminate H.
Defined.

(** X2.  With the Cursor on a hit ([0 <= Cursor < length]),
    [navigate("Enter")] assigns that hit's url to the location, whether or
    not the hit has a title to show, requests no scroll and changes no
    field. *)
Theorem X2_enter_goes_to_the_hit_under_the_cursor :
  forall (this : SearchResults) (c : Z),
    cursor this = Int c ->
    0 <= c < Z.of_nat (List.length (hits_ this)) ->
    exists hit,
      nth_error (hits_ this) (Z.to_nat c) = Some hit
      /\ navigate (lit "Enter") this = (this, [LocationAssign (url hit)]).
Proof.
  intros this c Hc Hr.
  destruct (nth_error (hits_ this) (Z.to_nat c)) as [hit |] eqn:E.
  - exists hit. split; [reflexivity |].
    destruct (navigate_dispatch this) as (_ & _ & _ & _ & _ & _ & ->).
    rewrite Hc. unfold JS.get.
    destruct (Z.ltb_spec c 0); [lia |]. rewrite E. reflexivity.
  - apply nth_error_None in E. lia.
Qed.

Lemma X2_witness :
  exists hit,
    nth_error (hits_ (set_cursor (Int 1) example_popout)) 1 = Some hit
    /\ navigate (lit "Enter") (set_cursor (Int 1) example_popout)
       = (set_cursor (Int 1) example_popout, [LocationAssign (url hit)]).
Proof.
  apply (X2_enter_goes_to_the_hit_under_the_cursor
           (set_cursor (Int 1) example_popout) 1);
    [reflexivity | cbn; lia].
Defined.

(** X3.  [navigate] assigns the location only for the key "Enter", and
    only to the url of the hit the Cursor is on. *)
Theorem X3_location_is_only_assigned_to_the_selected_hit :
  forall (key : jsstring) (this : SearchResults) (href : jsstring),
    In (LocationAssign href) (snd (navigate key this)) ->
    key = lit "Enter"
    /\ exists hit,
         JS.get (hits_ this) (cursor this) = Some hit /\ href = url hit.
Proof.
  intros key this href Hin.
  destruct (navigate_effects key this)
    as [E | [(m & E) | (Hkey & hit & Hget & E)]];
    rewrite E in Hin; cbn in Hin.
  - contradiction.
  - destruct Hin as [H | []]. discriminate H.
  - destruct Hin as [H | []]. injection H as <-.
    split; [exact Hkey |]. exists hit. split; [exact Hget | reflexivity].
Qed.

Lemma X3_witness :
  lit "Enter" = lit "Enter"
  /\ exists hit,
       JS.get (hits_ (move First example_popout))
         (cursor (move First example_popout)) = Some hit
       /\ lit "/fast" = url hit.
Proof.
  apply (X3_location_is_only_assigned_to_the_selected_hit
           (lit "Enter") (move First example_popout) (lit "/fast")).
  left. reflexivity.
Defined.

(** X4.  Whatever the key, [navigate] changes no field but the Cursor:
    the ResultSet, the visibility flag, the query and the
    [aria-activedescendant] attribute are as before. *)
Theorem X4_navigate_only_moves_the_cursor :
  forall (key : jsstring) (this : SearchResults),
    hits_ (fst (navigate key this)) = hits_ this
    /\ showHits (fst (navigate key this)) = showHits this
    /\ query (fst (navigate key this)) = query this
    /\ aria_activedescendant (fst (navigate key this))
       = aria_activedescendant this.
Proof.
  intros key this.
  destruct (navigate_cases key this) as [-> | (m & ->)];
    [auto | apply move_frame].
Qed.

(** *** Moving the cursor *)

Lemma next_times_hits k this : hits_ (next_times k this) = hits_ this.
Proof.
  unfold next_times. induction k as [| k IH]; [reflexivity |].
  rewrite Nat.iter_succ, move_hits. exact IH.
Qed.

Lemma prev_times_hits k this : hits_ (prev_times k this) = hits_ this.
Proof.
  unfold prev_times. induction k as [| k IH]; [reflexivity |].
  rewrite Nat.iter_succ, move_hits. exact IH.
Qed.

(** Stepping back from an index: [k] steps from [c] end on
    [(c - k) mod n]. *)
Lemma prev_times_cursor k this c :
  0 <= c < Z.of_nat (List.length (hits_ this)) ->
  cursor this = Int c ->
  cursor (prev_times k this)
  = Int ((c - Z.of_nat k) mod Z.of_nat (List.length (hits_ this))).
Proof.
  intros Hr Hc. induction k as [| k IH].
  - cbn. rewrite Z.sub_0_r, Z.mod_small by lia. assumption.
  - unfold prev_times in *. rewrite Nat.iter_succ. cbn [move].
    pose proof (prev_times_hits k this) as Hh. unfold prev_times in Hh.
    set (n := Z.of_nat (List.length (hits_ this))) in *.
    pose proof (Z.mod_pos_bound (c - Z.of_nat k) n ltac:(lia)) as Hb.
    erewrite prevHit_cursor_other; [| exact IH | lia | rewrite Hh; lia].
    rewrite Hh. fold n. f_equal.
    rewrite Z.rem_mod_nonneg by lia.
    rewrite <- Z.add_sub_swap, <- Z.add_sub_assoc.
    rewrite Z.add_mod_idemp_l by lia.
    replace (c - Z.of_nat k + (n - 1)) with (c - Z.of_nat (S k) + 1 * n)
      by lia.
    apply Z.mod_add. lia.
Qed.

(** X5.  On a Cursor that points at a hit, [next()] and [prev()] undo
    each other: either order brings the Cursor back. *)
Theorem X5_next_and_prev_are_inverse_on_hits :
  forall (this : SearchResults) (c : Z),
    cursor this = Int c ->
    0 <= c < Z.of_nat (List.length (hits_ this)) ->
    cursor (move Prev (move Next this)) = Int c
    /\ cursor (move Next (move Prev this)) = Int c.
Proof.
  intros this c Hc Hr.
  set (n := Z.of_nat (List.length (hits_ this))) in *.
  split.
  - pose proof (next_times_cursor 1 this c Hr Hc) as [Hh H1].
    change (next_times 1 this) with (move Next this) in Hh, H1.
    fold n in H1. cbn [move] in *.
    pose proof (Z.mod_pos_bound (c + Z.of_nat 1) n ltac:(lia)) as Hb.
    erewrite prevHit_cursor_other; [| exact H1 | lia | rewrite Hh; lia].
    rewrite Hh. fold n. f_equal.
    rewrite Z.rem_mod_nonneg by lia.
    rewrite <- Z.add_sub_swap, <- Z.add_sub_assoc.
    rewrite Z.add_mod_idemp_l by lia.
    replace (c + Z.of_nat 1 + (n - 1)) with (c + 1 * n) by lia.
    rewrite Z.mod_add by lia. apply Z.mod_small. lia.
  - pose proof (prev_times_cursor 1 this c Hr Hc) as H1.
    pose proof (prev_times_hits 1 this) as Hh.
    change (prev_times 1 this) with (move Prev this) in Hh, H1.
    fold n in H1. cbn [move] in *.
    pose proof (Z.mod_pos_bound (c - Z.of_nat 1) n ltac:(lia)) as Hb.
    erewrite nextHit_cursor; [| exact H1 | rewrite Hh; lia].
    rewrite Hh. fold n. f_equal.
    rewrite Z.rem_mod_nonneg by lia.
    rewrite Z.add_mod_idemp_l by lia.
    replace (c - Z.of_nat 1 + 1) with c by lia.
    apply Z.mod_small. lia.
Qed.

Lemma X5_witness :
  cursor (move Prev (move Next (move Last example_popout))) = Int 2
  /\ cursor (move Next (move Prev (move Last example_popout))) = Int 2.
Proof.
  apply (X5_next_and_prev_are_inverse_on_hits (move Last example_popout) 2);
    [reflexivity | cbn; lia].
Defined.

(** X6.  On a non-empty ResultSet of length n, from any Cursor c in range
    (-1 included), k + 1 applications of [next()] leave the Cursor on
    (c + 1 + k) mod n: pressing Down walks the list in order and wraps
    from the last hit to the first. *)
Theorem X6_next_walks_the_list :
  forall (this : SearchResults) (c : Z) (k : nat),
    hits_ this <> [] ->
    cursor this = Int c ->
    -1 <= c < Z.of_nat (List.length (hits_ this)) ->
    cursor (next_times (S k) this)
    = Int ((c + 1 + Z.of_nat k) mod Z.of_nat (List.length (hits_ this))).
Proof.
  intros this c k Hne Hc Hr.
  destruct (Z.eq_dec c (-1)) as [-> | Hc1].
  - rewrite next_times_from_none by assumption. f_equal; f_equal; lia.
  - destruct (next_times_cursor (S k) this c) as [_ ->];
      [lia | assumption |].
    f_equal; f_equal; lia.
Qed.

Lemma X6_witness :
  cursor (next_times 5 example_popout) = Int 1.
Proof.
  apply (X6_next_walks_the_list example_popout (-1) 4);
    [discriminate | reflexivity | cbn; lia].
Defined.

(** X7.  On a non-empty ResultSet of length n, k + 1 applications of
    [prev()] from a Cursor c on a hit leave the Cursor on
    (c - 1 - k) mod n, and from -1 on (n - 1 - k) mod n: from "none
    selected" Up behaves as it does from the first hit. *)
Theorem X7_prev_walks_the_list_backwards :
  forall (this : SearchResults) (c : Z) (k : nat),
    hits_ this <> [] ->
    cursor this = Int c ->
    -1 <= c < Z.of_nat (List.length (hits_ this)) ->
    cursor (prev_times (S k) this)
    = Int ((Z.max c 0 - 1 - Z.of_nat k)
             mod Z.of_nat (List.length (hits_ this))).
Proof.
  intros this c k Hne Hc Hr.
  pose proof (nonempty_length _ Hne) as Hlen.
  destruct (Z.eq_dec c (-1)) as [-> | Hc1].
  - unfold prev_times. rewrite Nat.iter_succ_r.
    fold (prev_times k (move Prev this)).
    pose proof (move_hits this Prev) as Hh.
    rewrite (prev_times_cursor k (move Prev this)
               (Z.of_nat (List.length (hits_ this)) - 1)).
    + rewrite Hh. f_equal.
      set (n := Z.of_nat (List.length (hits_ this))) in *.
      replace (n - 1 - Z.of_nat k)
        with (Z.max (-1) 0 - 1 - Z.of_nat k + 1 * n) by lia.
      apply Z.mod_add. lia.
    + rewrite Hh. lia.
    + apply prevHit_cursor_none. assumption.
  - rewrite (prev_times_cursor (S k) this c) by (lia || assumption).
    f_equal; f_equal; lia.
Qed.

Lemma X7_witness :
  cursor (prev_times 2 example_popout) = Int 1
  /\ cursor (prev_times 2 (move First example_popout)) = Int 1.
Proof.
  split.
  - apply (X7_prev_walks_the_list_backwards example_popout (-1) 1);
      [discriminate | reflexivity | cbn; lia].
  - apply (X7_prev_walks_the_list_backwards (move First example_popout) 0 1);
      [discriminate | reflexivity | cbn; lia].
Defined.

(** *** The empty list and [NaN] *)

(** X8.  On the empty ResultSet the modulo of [next()] and [prev()] has
    a zero divisor: [next()] leaves [NaN] in the Cursor whatever it was,
    and [prev()] leaves [NaN] unless the Cursor was -1, which it keeps. *)
Theorem X8_next_and_prev_on_the_empty_list :
  forall (this : SearchResults),
    hits_ this = [] ->
    cursor (move Next this) = NaN
    /\ cursor (move Prev this)
       = (if JS.strict_eq (cursor this) (Int (-1)) then Int (-1) else NaN).
Proof.
  intros this H. split; [apply nextHit_empty | apply prevHit_empty];
    assumption.
Qed.

Lemma X8_witness :
  cursor (move Next constructor_) = NaN
  /\ cursor (move Prev constructor_) = Int (-1)
  /\ cursor (move Prev (move First constructor_)) = NaN.
Proof.
  destruct (X8_next_and_prev_on_the_empty_list constructor_ eq_refl)
    as [Hn Hp].
  destruct (X8_next_and_prev_on_the_empty_list (move First constructor_)
              eq_refl) as [_ Hp'].
  split; [exact Hn |]. split; [exact Hp | exact Hp'].
Defined.

(** X9.  A [NaN] Cursor stays: on any ResultSet, empty or not, [next()]
    and [prev()] leave it [NaN], [navigate("Enter")] does nothing, and
    [updated] writes "web-search-popout__link--NaN" into
    [aria-activedescendant]. *)
Theorem X9_NaN_cursor_is_kept :
  forall (V : Type) (changedProperties : list (string * V))
         (this : SearchResults),
    cursor this = NaN ->
    cursor (move Next this) = NaN
    /\ cursor (move Prev this) = NaN
    /\ navigate (lit "Enter") this = (this, [])
    /\ aria_activedescendant (updated changedProperties this)
       = (if has changedProperties "cursor"
          then Some (lit "web-search-popout__link--NaN")
          else aria_activedescendant this).
Proof.
  intros V changedProperties this Hc.
  split; [cbn; rewrite Hc; reflexivity |].
  split; [cbn; unfold prevHit; rewrite Hc; reflexivity |].
  split.
  - destruct (navigate_dispatch this) as (_ & _ & _ & _ & _ & _ & ->).
    rewrite Hc. reflexivity.
  - unfold updated.
    destruct (has changedProperties "cursor"); [| reflexivity].
    rewrite Hc. reflexivity.
Qed.

Lemma X9_witness :
  cursor (move Next (set_hits example_hits (move Next constructor_))) <> NaN
  /\ cursor (move Next (set_cursor NaN example_popout)) = NaN
  /\ aria_activedescendant
       (updated [("cursor", Int 0)] (set_cursor NaN example_popout))
     = Some (lit "web-search-popout__link--NaN").
Proof.
  destruct (X9_NaN_cursor_is_kept _ [("cursor", Int 0)]
              (set_cursor NaN example_popout) eq_refl)
    as (Hn & _ & _ & Ha).
  split; [discriminate |]. split; [exact Hn | exact Ha].
Defined.

(** X10.  In every state the component reaches, the Cursor is within
    [-1 <= Cursor < length] when there are hits, and is -1, 0 or [NaN]
    when there are none. *)
Theorem X10_reachable_cursors :
  forall (this : SearchResults),
    reachable this ->
    match hits_ this with
    | [] => cursor this = Int (-1) \/ cursor this = Int 0 \/ cursor this = NaN
    | _ :: _ => cursor_in_range this = true
    end.
Proof.
  intros this H.
  destruct (hits_ this) as [| h l] eqn:E;
    [| apply reachable_in_range; [assumption | congruence]].
  induction H as [| hits this _ _ | b this _ IH | q this _ IH
                  | key this _ IH | ch this _ IH].
  - left. reflexivity.
  - left. reflexivity.
  - apply IH, E.
  - apply IH, E.
  - rewrite navigate_hits in E. specialize (IH E).
    destruct (navigate_cases key this) as [-> | (m & ->)]; [exact IH |].
    destruct m.
    + right. left. reflexivity.
    + left. cbn. rewrite E. reflexivity.
    + right. right. apply nextHit_empty, E.
    + cbn [move]. rewrite (prevHit_empty this E).
      destruct (JS.strict_eq (cursor this) (Int (-1))); auto.
  - destruct (updated_fields ch this) as (Hh & Hc & _).
    rewrite Hh in E. rewrite Hc. apply IH, E.
Qed.

Lemma X10_witness :
  cursor_in_range
    (fst (navigate (lit "ArrowUp") (set_hits example_hits constructor_)))
  = true.
Proof.
  apply (X10_reachable_cursors
           (fst (navigate (lit "ArrowUp") (set_hits example_hits constructor_)))).
  apply reach_navigate, reach_hits, reach_constructor.
Defined.

(** *** [updated] *)

(** X11.  [updated] touches nothing but the [aria-activedescendant]
    attribute, running it twice is the same as running it once, and once
    it has run for a Cursor change, running it again with whatever set of
    changed properties changes nothing. *)
Theorem X11_updated_is_idempotent :
  forall (V W : Type) (changedProperties : list (string * V))
         (again : list (string * W)) (this : SearchResults),
    hits_ (updated changedProperties this) = hits_ this
    /\ showHits (updated changedProperties this) = showHits this
    /\ cursor (updated changedProperties this) = cursor this
    /\ query (updated changedProperties this) = query this
    /\ updated changedProperties (updated changedProperties this)
       = updated changedProperties this
    /\ updated again (updated changedProperties this)
       = (if has changedProperties "cursor"
          then updated changedProperties this
          else updated again this).
Proof.
  intros V W changedProperties again this.
  destruct (updated_fields changedProperties this) as (Hh & Hc & Hs & Hq).
  repeat (split; [assumption |]).
  assert (Hfix : forall X (ch : list (string * X)),
            has changedProperties "cursor" = true ->
            updated ch (updated changedProperties this)
            = updated changedProperties this).
  { intros X ch Hhas. unfold updated at 1.
    destruct (negb (has ch "cursor")); [reflexivity |].
    rewrite Hc. unfold updated. rewrite Hhas. cbn [negb].
    destruct (JS.strict_eq (cursor this) (Int (-1))); reflexivity. }
  destruct (has changedProperties "cursor") eqn:Hhas.
  - split; apply Hfix; reflexivity.
  - assert (Hid : updated changedProperties this = this)
      by (unfold updated; rewrite Hhas; reflexivity).
    rewrite !Hid. split; reflexivity.
Qed.

(** *** When [render] throws *)

(** Induction over a string that may look one code unit ahead, as
    [encodeURIComponent] does for a surrogate pair. *)
Lemma jsstring_pair_ind (P : jsstring -> Prop) :
  P [] ->
  (forall c s, P s -> (forall d s', s = d :: s' -> P s') -> P (c :: s)) ->
  forall s, P s.
Proof.
  intros Hnil Hcons s.
  enough (H : P s /\ (forall d s', s = d :: s' -> P s')) by apply H.
  induction s as [| c s [IH1 IH2]].
  - split; [exact Hnil | discriminate].
  - split; [apply Hcons; assumption |].
    intros d s' E. injection E as _ <-. exact IH1.
Qed.

Lemma bind_Throw {A B} (c : completion A) (k : A -> completion B) e :
  JS.bind c k = Throw e ->
  c = Throw e \/ exists a, c = Normal a /\ k a = Throw e.
Proof.
  destruct c as [a | e']; cbn; intros H; [right; eauto |].
  left. injection H as ->. reflexivity.
Qed.

Lemma encodeURIComponent_throws_URIError s e :
  JS.encodeURIComponent s = Throw e -> e = JS.URIError.
Proof.
  revert e. induction s as [| c s IH1 IH2] using jsstring_pair_ind;
    intros e H; [discriminate H |].
  cbn [JS.encodeURIComponent] in H.
  destruct (JS.uriUnescaped c).
  { apply bind_Throw in H as [H | (r & _ & H)]; [eauto | discriminate H]. }
  destruct (JS.isLeadingSurrogate c).
  { destruct s as [| d s']; [congruence |].
    destruct (JS.isTrailingSurrogate d); [| congruence].
    apply bind_Throw in H as [H | (r & _ & H)]; [| discriminate H].
    eapply IH2; [reflexivity | exact H]. }
  destruct (JS.isTrailingSurrogate c); [congruence |].
  apply bind_Throw in H as [H | (r & _ & H)]; [eauto | discriminate H].
Qed.

Lemma encodeURIComponent_total s :
  (forall c, In c s -> isSurrogate c = false) ->
  exists r, JS.encodeURIComponent s = Normal r.
Proof.
  induction s as [| c s IH]; intros Hs; [eexists; reflexivity |].
  destruct IH as (r & Hr); [intros d Hd; apply Hs; right; exact Hd |].
  pose proof (Hs c (or_introl eq_refl)) as Hc.
  apply orb_false_iff in Hc as [Hl Ht].
  cbn [JS.encodeURIComponent]. rewrite Hl, Ht, Hr.
  destruct (JS.uriUnescaped c); eexists; reflexivity.
Qed.

Lemma trimStart_In c s : In c (JS.trimStart s) -> In c s.
Proof.
  induction s as [| d s IH]; cbn; [tauto |].
  destruct (JS.is_whitespace d); [right; auto | cbn; tauto].
Qed.

Lemma trim_In c s : In c (JS.trim s) -> In c s.
Proof.
  unfold JS.trim. intros H.
  apply in_rev, trimStart_In, in_rev, trimStart_In in H. exact H.
Qed.

Lemma map_from_Throw {A B} (f : A -> number -> completion B) arr :
  forall k e,
    JS.map_from k f arr = Throw e ->
    exists x idx, In x arr /\ f x idx = Throw e.
Proof.
  induction arr as [| a arr IH]; intros k e H; [discriminate H |].
  cbn [JS.map_from] in H.
  apply bind_Throw in H as [H | (y & _ & H)].
  - exists a, (Int (Z.of_nat k)). split; [left; reflexivity | exact H].
  - apply bind_Throw in H as [H | (ys & _ & H)]; [| discriminate H].
    destruct (IH _ _ H) as (x & idx & Hin & Hx).
    exists x, idx. split; [right; exact Hin | exact Hx].
Qed.

(** When one element makes the callback throw, and the callback throws
    nothing else, [map] throws that. *)
Lemma map_from_throws {A B} (f : A -> number -> completion B) arr x e :
  In x arr ->
  (forall idx, f x idx = Throw e) ->
  (forall y idx e', f y idx = Throw e' -> e' = e) ->
  forall k, JS.map_from k f arr = Throw e.
Proof.
  intros Hin Hx Honly. induction arr as [| a arr IH]; [contradiction |].
  intros k. cbn [JS.map_from].
  destruct (f a (Int (Z.of_nat k))) as [y |] eqn:Ea.
  - destruct Hin as [-> | Hin]; [rewrite Hx in Ea; discriminate Ea |].
    cbn [JS.bind]. rewrite (IH Hin). reflexivity.
  - cbn [JS.bind]. f_equal. eapply Honly. exact Ea.
Qed.

Lemma itemTemplate_Throw this hit idx e :
  itemTemplate this hit idx = Throw e ->
  e = JS.TypeError /\ _highlightResult hit = None.
Proof.
  intros H. pose proof (itemTemplate_spec this hit idx) as S.
  destruct (_highlightResult hit); [| split; congruence].
  destruct (highlightTitle hit) as [[| c v] |]; try congruence.
  destruct S as (attributes & E & _). congruence.
Qed.

(** X12.  [render] throws a [TypeError] exactly when the popout is shown
    and some hit of the ResultSet has no [_highlightResult]; one such hit
    anywhere in the list is enough to lose the whole view. *)
Theorem X12_render_TypeError :
  forall (this : SearchResults),
    render this = Throw JS.TypeError
    <-> showHits this = true
        /\ exists hit, In hit (hits_ this) /\ _highlightResult hit = None.
Proof.
  intros this. unfold render. rewrite length_is_zero. split.
  - destruct (showHits this); cbn [negb]; [| discriminate].
    intros H. split; [reflexivity |].
    destruct (hits_ this) as [| h l] eqn:E.
    + destruct (query this); [discriminate H |].
      apply bind_Throw in H as [H | (r & _ & H)]; [| discriminate H].
      apply encodeURIComponent_throws_URIError in H. discriminate H.
    + apply bind_Throw in H as [H | (r & _ & H)]; [| discriminate H].
      unfold itemsTemplate, JS.map in H. rewrite E in H.
      apply map_from_Throw in H as (x & idx & Hin & Hx).
      apply itemTemplate_Throw in Hx as [_ Hx]. eauto.
  - intros (-> & hit & Hin & Hnone). cbn [negb].
    assert (Hitems : itemsTemplate this = Throw JS.TypeError).
    { unfold itemsTemplate, JS.map.
      apply (map_from_throws _ _ hit); [exact Hin | |].
      - intros idx. unfold itemTemplate. rewrite Hnone. reflexivity.
      - intros y idx e' H. apply itemTemplate_Throw in H as [H _]. exact H. }
    destruct (hits_ this); [contradiction |].
    rewrite Hitems. reflexivity.
Qed.

(** X13.  [render] returns normally whenever every hit has a
    [_highlightResult] and the query holds no surrogate code unit. *)
Theorem X13_render_returns :
  forall (this : SearchResults),
    (forall hit, In hit (hits_ this) -> _highlightResult hit <> None) ->
    (forall c, In c (query this) -> isSurrogate c = false) ->
    exists view, render this = Normal view.
Proof.
  intros this Hhits Hquery.
  destruct (render this) as [view | e] eqn:E; [eexists; reflexivity |].
  exfalso. unfold render in E. rewrite length_is_zero in E.
  destruct (showHits this); cbn [negb] in E; [| discriminate E].
  destruct (hits_ this) as [| h l] eqn:Eh.
  - destruct (query this) as [| c q] eqn:Eq; [discriminate E |].
    destruct (encodeURIComponent_total (lit "web.dev " ++ JS.trim (c :: q)))
      as (r & Hr).
    + intros d Hd. apply in_app_or in Hd as [Hd | Hd].
      * cbn in Hd. repeat (destruct Hd as [<- | Hd]; [reflexivity |]).
        contradiction.
      * apply Hquery, trim_In, Hd.
    + rewrite Hr in E. discriminate E.
  - apply bind_Throw in E as [E | (r & _ & E)]; [| discriminate E].
    unfold itemsTemplate, JS.map in E. rewrite Eh in E.
    apply map_from_Throw in E as (x & idx & Hin & Hx).
    apply itemTemplate_Throw in Hx as [_ Hx]. exact (Hhits x Hin Hx).
Qed.

Lemma X13_witness :
  (exists view, render example_popout = Normal view)
  /\ (exists view, render example_no_hits = Normal view).
Proof.
  split.
  - apply (X13_render_returns example_popout).
    + intros hit [<- | [<- | [<- | []]]]; discriminate.
    + intros c [].
  - apply (X13_render_returns example_no_hits).
    + intros hit [].
    + intros c [<- | [<- | [<- | [<- | []]]]]; reflexivity.
Defined.

(** *** The fallback link *)

Lemma hexDigit_safe d : (d < 16)%N -> uriSafe (JS.hexDigit d) = true.
Proof.
  intros H. assert (E : d = N.of_nat (N.to_nat d)) by lia.
  assert (Hn : (N.to_nat d < 16)%nat) by lia.
  rewrite E. clear E H. generalize dependent (N.to_nat d). intros n Hn.
  do 16 (destruct n as [| n]; [reflexivity |]). lia.
Qed.

Lemma percent_safe octet :
  (octet < 256)%N -> forallb uriSafe (JS.percent octet) = true.
Proof.
  intros H. unfold JS.percent. cbn [forallb].
  rewrite !hexDigit_safe.
  - reflexivity.
  - apply N.mod_lt. discriminate.
  - apply N.Div0.div_lt_upper_bound. exact H.
Qed.

Lemma escapeCodePoint_safe cp :
  (cp < 2097152)%N -> forallb uriSafe (JS.escapeCodePoint cp) = true.
Proof.
  intros H. unfold JS.escapeCodePoint, JS.utf8.
  pose proof (N.mod_lt cp 64 ltac:(discriminate)).
  pose proof (N.mod_lt (cp / 64) 64 ltac:(discriminate)).
  pose proof (N.mod_lt (cp / 4096) 64 ltac:(discriminate)).
  destruct (N.ltb_spec cp 128);
    [| destruct (N.ltb_spec cp 2048); [| destruct (N.ltb_spec cp 65536)]];
    cbn [List.map List.concat]; rewrite ?forallb_app, ?percent_safe;
    try reflexivity; try lia.
  - pose proof (N.Div0.div_lt_upper_bound cp 64 32). lia.
  - pose proof (N.Div0.div_lt_upper_bound cp 4096 16). lia.
  - pose proof (N.Div0.div_lt_upper_bound cp 262144 8). lia.
Qed.

(** What [encodeURIComponent] returns is made of unreserved characters
    and percent signs only. *)
Lemma encodeURIComponent_safe (s : jsstring) :
  (forall c, In c s -> (c < 65536)%N) ->
  forall r, JS.encodeURIComponent s = Normal r -> forallb uriSafe r = true.
Proof.
  induction s as [| c s IH1 IH2] using jsstring_pair_ind; intros Hs r H.
  { injection H as <-. reflexivity. }
  pose proof (Hs c (or_introl eq_refl)) as Hc.
  assert (Hs' : forall d, In d s -> (d < 65536)%N)
    by (intros d Hd; apply Hs; right; exact Hd).
  cbn [JS.encodeURIComponent] in H.
  destruct (JS.uriUnescaped c) eqn:Eu.
  { destruct (JS.encodeURIComponent s) as [r' |]; [| discriminate H].
    injection H as <-. cbn [forallb]. unfold uriSafe at 1. rewrite Eu.
    apply (IH1 Hs' r' eq_refl). }
  destruct (JS.isLeadingSurrogate c) eqn:El.
  { destruct s as [| d s']; [discriminate H |].
    destruct (JS.isTrailingSurrogate d) eqn:Et; [| discriminate H].
    destruct (JS.encodeURIComponent s') as [r' |] eqn:Er; [| discriminate H].
    injection H as <-. rewrite forallb_app. apply andb_true_iff. split.
    - apply escapeCodePoint_safe.
      unfold JS.isLeadingSurrogate in El. unfold JS.isTrailingSurrogate in Et.
      apply andb_true_iff in El as [El1 El2].
      apply andb_true_iff in Et as [Et1 Et2].
      apply N.leb_le in El1, El2, Et1, Et2. lia.
    - apply (IH2 d s' eq_refl); [| exact Er].
      intros x Hx. apply Hs'. right. exact Hx. }
  destruct (JS.isTrailingSurrogate c); [discriminate H |].
  destruct (JS.encodeURIComponent s) as [r' |]; [| discriminate H].
  injection H as <-. rewrite forallb_app. apply andb_true_iff. split.
  - apply escapeCodePoint_safe. lia.
  - apply (IH1 Hs' r' eq_refl).
Qed.

(** The fixed prefix is encoded by itself. *)
Lemma encodeURIComponent_web_dev s :
  JS.encodeURIComponent (lit "web.dev " ++ s)
  = JS.bind (JS.encodeURIComponent s) (fun r =>
    Normal (lit "web.dev%20" ++ r)).
Proof.
  change (lit "web.dev " ++ s)
    with (119 :: 101 :: 98 :: 46 :: 100 :: 101 :: 118 :: 32 :: s)%N.
  cbn [JS.encodeURIComponent]. cbv beta iota delta
    [JS.uriUnescaped JS.isLeadingSurrogate JS.isTrailingSurrogate
     N.leb N.eqb N.compare Pos.compare Pos.compare_cont Pos.eqb
     orb andb].
  destruct (JS.encodeURIComponent s); reflexivity.
Qed.

Lemma trim_whitespace s :
  forallb JS.is_whitespace s = true -> JS.trim s = [].
Proof.
  intros H. unfold JS.trim.
  replace (JS.trimStart s) with (@nil N); [reflexivity |].
  induction s as [| c s IH]; [reflexivity |].
  cbn in H |- *. apply andb_true_iff in H as [Hc Hs].
  rewrite Hc. apply IH, Hs.
Qed.

(** X14.  In the "no suggestions" view the link's href is
    "https://google.com/search?q=web.dev%20" followed by the encoded,
    trimmed query, and that tail is made of unreserved characters and
    percent signs only: whatever the user typed, the URL has the one
    parameter [q]. *)
Theorem X14_fallback_href_is_one_parameter :
  forall (this : SearchResults) (view : Rendered),
    showHits this = true ->
    hits_ this = [] ->
    query this <> [] ->
    (forall c, In c (query this) -> (c < 65536)%N) ->
    render this = Normal view ->
    exists encoded,
      JS.encodeURIComponent (JS.trim (query this)) = Normal encoded
      /\ hrefs view
         = [Some (lit "https://google.com/search?q=web.dev%20" ++ encoded)]
      /\ forallb uriSafe encoded = true.
Proof.
  intros this view Hshow Hhits Hq Hunits Hr.
  destruct (JS.encodeURIComponent (JS.trim (query this))) as [encoded | e]
    eqn:Eenc.
  - exists encoded. split; [reflexivity |]. split.
    + destruct (render_no_suggestions this (lit "web.dev%20" ++ encoded)
                  Hshow Hhits Hq) as (nodes & attributes & Hr' & Ha & Hhref & _).
      { rewrite encodeURIComponent_web_dev, Eenc. reflexivity. }
      rewrite Hr in Hr'. injection Hr' as ->.
      unfold hrefs. rewrite Ha. cbn [List.map fst]. rewrite Hhref.
      reflexivity.
    + apply (encodeURIComponent_safe (JS.trim (query this)));
        [| exact Eenc].
      intros c Hc. apply Hunits, trim_In, Hc.
  - exfalso. unfold render in Hr. rewrite Hshow, Hhits in Hr.
    cbn [negb] in Hr. rewrite length_is_zero in Hr.
    destruct (query this); [congruence |].
    rewrite encodeURIComponent_web_dev, Eenc in Hr. discriminate Hr.
Qed.

Lemma X14_witness :
  exists view encoded,
    render (set_query (lit " a&b=c ") example_no_hits) = Normal view
    /\ encoded = lit "a%26b%3Dc"
    /\ hrefs view
       = [Some (lit "https://google.com/search?q=web.dev%20" ++ encoded)]
    /\ forallb uriSafe encoded = true.
Proof.
  destruct (render (set_query (lit " a&b=c ") example_no_hits))
    as [view |] eqn:E; [| discriminate E].
  destruct (X14_fallback_href_is_one_parameter
              (set_query (lit " a&b=c ") example_no_hits) view)
    as (encoded & Henc & Hhref & Hsafe).
  - reflexivity.
  - reflexivity.
  - discriminate.
  - intros c Hc. cbn in Hc.
    repeat (destruct Hc as [<- | Hc]; [reflexivity |]). contradiction.
  - exact E.
  - exists view, encoded. split; [reflexivity |].
    split; [| split; [exact Hhref | exact Hsafe]].
    vm_compute in Henc. injection Henc as <-. reflexivity.
Defined.

(** X15.  A query of white space only is not the empty string, so the
    "no suggestions" view is still rendered; its link searches for the
    bare prefix, "https://google.com/search?q=web.dev%20". *)
Theorem X15_blank_query_still_links :
  forall (this : SearchResults),
    showHits this = true ->
    hits_ this = [] ->
    query this <> [] ->
    forallb JS.is_whitespace (query this) = true ->
    exists view,
      render this = Normal view
      /\ hrefs view = [Some (lit "https://google.com/search?q=web.dev%20")].
Proof.
  intros this Hshow Hhits Hq Hws.
  destruct (render_no_suggestions this (lit "web.dev%20") Hshow Hhits Hq)
    as (nodes & attributes & Hr & Ha & Hhref & _).
  - rewrite (trim_whitespace _ Hws). reflexivity.
  - exists (Template nodes). split; [exact Hr |].
    unfold hrefs. rewrite Ha. cbn [List.map fst]. rewrite Hhref.
    reflexivity.
Qed.

Lemma X15_witness :
  exists view,
    render (set_query (lit "  ") example_no_hits) = Normal view
    /\ hrefs view = [Some (lit "https://google.com/search?q=web.dev%20")].
Proof.
  apply (X15_blank_query_still_links (set_query (lit "  ") example_no_hits));
    solve [reflexivity | discriminate].
Defined.

(** *** The list view *)

Lemma anchors_of_app l1 l2 :
  anchors_of (l1 ++ l2) = anchors_of l1 ++ anchors_of l2.
Proof. unfold anchors_of. rewrite map_app, concat_app. reflexivity. Qed.

Lemma elements_of_app l1 l2 :
  elements_of (l1 ++ l2) = elements_of l1 ++ elements_of l2.
Proof. unfold elements_of. rewrite map_app, concat_app. reflexivity. Qed.

(** One item: nothing for a hit that fails the guard, and otherwise a
    list item around one link that carries what [renders_entry] says. *)
Lemma itemTemplate_entry this hit i item :
  itemTemplate this hit (Int (Z.of_nat i)) = Normal item ->
  if titled hit
  then exists a,
         anchors_of item = [a]
         /\ elements_of item = item_elements a
         /\ renders_entry this a (i, hit)
  else item = [].
Proof.
  unfold renders_entry. cbn [fst snd].
  unfold itemTemplate, titled, highlightTitle.
  generalize (JS.strict_eq (Int (Z.of_nat i)) (cursor this)). intros active.
  destruct (_highlightResult hit) as [[[[[[| c v] |]] |]] |];
    intros H; try discriminate H; try (injection H as <-; reflexivity).
  injection H as <-. eexists. split; [reflexivity |].
  split; [reflexivity |]. cbn [fst snd].
  repeat (split; [reflexivity |]).
  split; [destruct active; reflexivity |].
  split; [destruct active; reflexivity |].
  eexists. split; reflexivity.
Qed.

Lemma entries_from_cons k hit hits :
  entries_from k (hit :: hits) = (k, hit) :: entries_from (S k) hits.
Proof. reflexivity. Qed.

(** The items of a list of hits: their links are those of the hits that
    pass the guard, in order, each inside its own list item. *)
Lemma items_entries this hits :
  forall k items,
    JS.map_from k (itemTemplate this) hits = Normal items ->
    Forall2 (renders_entry this) (anchors_of (List.concat items))
      (filter (fun entry => titled (snd entry)) (entries_from k hits))
    /\ elements_of (List.concat items)
       = flat_map item_elements (anchors_of (List.concat items)).
Proof.
  induction hits as [| hit hits IH]; intros k items H; cbn [JS.map_from] in H.
  - injection H as <-. split; [constructor | reflexivity].
  - destruct (itemTemplate this hit (Int (Z.of_nat k))) as [item |] eqn:Ei;
      [| discriminate H].
    cbn [JS.bind] in H.
    destruct (JS.map_from (S k) (itemTemplate this) hits) as [rest |] eqn:Er;
      [| discriminate H].
    injection H as <-. destruct (IH _ _ Er) as [IHa IHe].
    cbn [List.concat]. rewrite anchors_of_app, elements_of_app, IHe.
    rewrite entries_from_cons. cbn [filter snd].
    apply itemTemplate_entry in Ei.
    destruct (titled hit).
    + destruct Ei as (a & -> & -> & Ha). cbn [app flat_map].
      split; [constructor; assumption | reflexivity].
    + subst item. split; [exact IHa | reflexivity].
Qed.

Lemma entries_from_snd hits : forall k, List.map snd (entries_from k hits) = hits.
Proof.
  induction hits as [| hit hits IH]; intros k; [reflexivity |].
  rewrite entries_from_cons. cbn [List.map snd]. rewrite IH. reflexivity.
Qed.

Lemma entries_from_fst hits :
  forall k, List.map fst (entries_from k hits) = seq k (List.length hits).
Proof.
  induction hits as [| hit hits IH]; intros k; [reflexivity |].
  rewrite entries_from_cons. cbn [List.map fst List.length seq].
  rewrite IH. reflexivity.
Qed.

Lemma entries_from_In hits i hit :
  forall k,
    In (i, hit) (entries_from k hits)
    <-> (k <= i)%nat /\ nth_error hits (i - k) = Some hit.
Proof.
  induction hits as [| h hits IH]; intros k.
  - cbn. split; [tauto |]. intros [_ H]. destruct (i - k)%nat; discriminate H.
  - rewrite entries_from_cons. cbn [In]. rewrite IH. split.
    + intros [E | [Hle Hn]].
      * injection E as -> ->. rewrite Nat.sub_diag. split; [lia | reflexivity].
      * split; [lia |]. replace (i - k)%nat with (S (i - S k)) by lia.
        exact Hn.
    + intros [Hle Hn]. destruct (Nat.eq_dec i k) as [-> | Hne].
      * rewrite Nat.sub_diag in Hn. injection Hn as ->. left. reflexivity.
      * right. split; [lia |].
        replace (i - k)%nat with (S (i - S k)) in Hn by lia. exact Hn.
Qed.

Lemma map_filter_snd {A B} (p : B -> bool) (l : list (A * B)) :
  List.map snd (filter (fun e => p (snd e)) l) = filter p (List.map snd l).
Proof.
  induction l as [| e l IH]; [reflexivity |]. cbn.
  destruct (p (snd e)); cbn; rewrite IH; reflexivity.
Qed.

Lemma Forall2_map_eq {A B C} (R : A -> B -> Prop) (f : A -> C) (g : B -> C)
  l1 l2 :
  (forall a b, R a b -> f a = g b) ->
  Forall2 R l1 l2 -> List.map f l1 = List.map g l2.
Proof.
  intros HR H. induction H as [| a b l1 l2 Hab _ IH]; [reflexivity |].
  cbn. rewrite (HR a b Hab), IH. reflexivity.
Qed.

Lemma Forall2_filter {A B} (R : A -> B -> Prop) (p : A -> bool) (q : B -> bool)
  l1 l2 :
  (forall a b, R a b -> p a = q b) ->
  Forall2 R l1 l2 -> Forall2 R (filter p l1) (filter q l2).
Proof.
  intros HR H. induction H as [| a b l1 l2 Hab _ IH]; [constructor |].
  cbn. rewrite (HR a b Hab). destruct (q b); [constructor |]; assumption.
Qed.

(** What [render] returns for a shown popout with hits. *)
Lemma render_list_view this view :
  showHits this = true -> hits_ this <> [] ->
  render this = Normal view ->
  exists items nodes,
    itemsTemplate this = Normal items
    /\ view = Template nodes
    /\ anchors_of nodes = anchors_of (List.concat items)
    /\ elements_of nodes
       = [("div", [("class", lit "web-search-popout")]);
          ("div", [("class", lit "web-search-popout__heading")]);
          ("ul", [("id", lit "web-search-popout__list");
                  ("class", lit "web-search-popout__list");
                  ("role", lit "listbox")])]
         ++ elements_of (List.concat items).
Proof.
  intros Hshow Hne Hr. unfold render in Hr.
  rewrite Hshow, length_is_zero in Hr. cbn [negb] in Hr.
  destruct (hits_ this) as [| h l] eqn:E; [congruence |].
  destruct (itemsTemplate this) as [items |]; [| discriminate Hr].
  cbn [JS.bind] in Hr. injection Hr as <-.
  exists items. eexists. split; [reflexivity |]. split; [reflexivity |].
  split.
  - unfold anchors_of. cbn. rewrite !app_nil_r. reflexivity.
  - unfold elements_of. cbn. rewrite !app_nil_r. reflexivity.
Qed.

(** X16.  In the list view the links are those of the hits that pass the
    title guard, one each and in the order of the ResultSet: every link
    carries its position's id, its hit's url and title, and the hrefs
    of the view are the urls of the titled hits. *)
Theorem X16_links_follow_the_titled_hits :
  forall (this : SearchResults) (nodes : list Node),
    showHits this = true ->
    hits_ this <> [] ->
    render this = Normal (Template nodes) ->
    Forall2 (renders_entry this) (anchors_of nodes)
      (shown_entries (hits_ this))
    /\ hrefs (Template nodes)
       = List.map (fun hit => Some (url hit)) (filter titled (hits_ this)).
Proof.
  intros this nodes Hshow Hne Hr.
  destruct (render_list_view this _ Hshow Hne Hr)
    as (items & nodes' & Hitems & E & Ha & _).
  injection E as <-.
  destruct (items_entries this _ _ _ Hitems) as [HF _].
  rewrite <- Ha in HF. split; [exact HF |].
  unfold hrefs.
  rewrite (Forall2_map_eq _ _ (fun entry => Some (url (snd entry))) _ _
             (fun a b (H : renders_entry this a b) => proj1 (proj2 H)) HF).
  unfold shown_entries.
  rewrite <- (map_map snd (fun hit => Some (url hit))).
  rewrite map_filter_snd, entries_from_snd. reflexivity.
Qed.

Lemma X16_witness :
  exists nodes,
    render example_popout = Normal (Template nodes)
    /\ hrefs (Template nodes) = [Some (lit "/fast"); Some (lit "/learn")].
Proof.
  destruct (render example_popout) as [[nodes |] |] eqn:E;
    try discriminate E.
  exists nodes. split; [reflexivity |].
  apply (X16_links_follow_the_titled_hits example_popout nodes);
    [reflexivity | discriminate | exact E].
Defined.

Lemma NoDup_map_filter {A B} (f : A -> B) (p : A -> bool) l :
  NoDup (List.map f l) -> NoDup (List.map f (filter p l)).
Proof.
  induction l as [| a l IH]; cbn; [auto |].
  intros H. apply NoDup_cons_iff in H as [Hnotin Hnd].
  destruct (p a); [| auto]. cbn. constructor; [| auto].
  intros Hin. apply Hnotin. apply in_map_iff in Hin as (x & Hx & Hin).
  apply filter_In in Hin as [Hin _]. apply in_map_iff. eauto.
Qed.

Lemma shown_entries_NoDup hits : NoDup (List.map fst (shown_entries hits)).
Proof.
  unfold shown_entries. apply NoDup_map_filter.
  rewrite entries_from_fst. apply seq_NoDup.
Qed.

Lemma shown_entries_In hits i hit :
  In (i, hit) (shown_entries hits)
  <-> nth_error hits i = Some hit /\ titled hit = true.
Proof.
  unfold shown_entries. rewrite filter_In, entries_from_In.
  rewrite Nat.sub_0_r. cbn [snd]. split; [tauto |].
  intros [H1 H2]. split; [split; [lia | exact H1] | exact H2].
Qed.

Lemma link_id_inj (i j : nat) :
  Some (lit "web-search-popout__link--" ++ JS.ToString (Int (Z.of_nat i)))
  = Some (lit "web-search-popout__link--" ++ JS.ToString (Int (Z.of_nat j))) ->
  i = j.
Proof.
  intros H. apply Some_app_inv, ToString_inj in H.
  injection H as H. lia.
Qed.

(** X17.  In the list view every link has an id, "web-search-popout__link--"
    followed by the position of its hit in the ResultSet, and no two
    links share one; positions of skipped hits are left out, not
    renumbered. *)
Theorem X17_link_ids_are_distinct :
  forall (this : SearchResults) (nodes : list Node),
    showHits this = true ->
    hits_ this <> [] ->
    render this = Normal (Template nodes) ->
    ids (Template nodes)
    = List.map
        (fun entry =>
           Some (lit "web-search-popout__link--"
                   ++ JS.ToString (Int (Z.of_nat (fst entry)))))
        (shown_entries (hits_ this))
    /\ NoDup (ids (Template nodes)).
Proof.
  intros this nodes Hshow Hne Hr.
  destruct (render_list_view this _ Hshow Hne Hr)
    as (items & nodes' & Hitems & E & Ha & _).
  injection E as <-.
  destruct (items_entries this _ _ _ Hitems) as [HF _].
  rewrite <- Ha in HF.
  assert (Hids :
    ids (Template nodes)
    = List.map
        (fun entry =>
           Some (lit "web-search-popout__link--"
                   ++ JS.ToString (Int (Z.of_nat (fst entry)))))
        (shown_entries (hits_ this))).
  { unfold ids.
    apply (Forall2_map_eq (renders_entry this)); [| exact HF].
    intros a b H. exact (proj1 H). }
  split; [exact Hids |]. rewrite Hids.
  rewrite <- (map_map fst (fun i =>
    Some (lit "web-search-popout__link--" ++ JS.ToString (Int (Z.of_nat i))))).
  apply NoDup_map_NoDup_ForallPairs; [| apply shown_entries_NoDup].
  intros i j _ _. apply link_id_inj.
Qed.

Lemma X17_witness :
  exists nodes,
    render example_popout = Normal (Template nodes)
    /\ ids (Template nodes)
       = [Some (lit "web-search-popout__link--0");
          Some (lit "web-search-popout__link--2")]
    /\ NoDup (ids (Template nodes)).
Proof.
  destruct (render example_popout) as [[nodes |] |] eqn:E;
    try discriminate E.
  destruct (X17_link_ids_are_distinct example_popout nodes)
    as [Hids Hnd]; [reflexivity | discriminate | exact E |].
  exists nodes. split; [reflexivity |]. split; [exact Hids | exact Hnd].
Defined.

(** *** The active link *)

Lemma filter_item_elements name l :
  hasClass name [("class", lit "web-search-popout__item")] = false ->
  filter (fun element => hasClass name (snd element))
    (flat_map item_elements l)
  = List.map (fun a => ("a", fst a))
      (filter (fun a => hasClass name (fst a)) l).
Proof.
  intros Hli. induction l as [| a l IH]; [reflexivity |].
  cbn [flat_map item_elements app filter snd]. rewrite Hli, IH.
  destruct (hasClass name (fst a)); reflexivity.
Qed.

Lemma NoDup_all_equal {A} (l : list A) :
  NoDup l -> (forall x y, In x l -> In y l -> x = y) ->
  (List.length l <= 1)%nat.
Proof.
  intros Hnd Heq. destruct l as [| a [| b l]]; cbn; try lia.
  exfalso. apply NoDup_cons_iff in Hnd as [Hnotin _]. apply Hnotin.
  rewrite (Heq a b); cbn; auto.
Qed.

(** The entries the Cursor selects: at most one, and one exactly when
    the Cursor is the position of a titled hit. *)
Lemma selected_entries this :
  let selected :=
    filter (fun entry =>
              JS.strict_eq (Int (Z.of_nat (fst entry))) (cursor this))
      (shown_entries (hits_ this)) in
  (List.length selected <= 1)%nat
  /\ (forall entry, In entry selected ->
        cursor this = Int (Z.of_nat (fst entry))
        /\ nth_error (hits_ this) (fst entry) = Some (snd entry)
        /\ titled (snd entry) = true)
  /\ (selected = [] ->
      forall idx hit,
        cursor this = Int (Z.of_nat idx) ->
        nth_error (hits_ this) idx = Some hit -> titled hit = false).
Proof.
  cbv zeta.
  assert (Hin : forall entry,
    In entry
      (filter (fun entry =>
                 JS.strict_eq (Int (Z.of_nat (fst entry))) (cursor this))
         (shown_entries (hits_ this))) ->
    cursor this = Int (Z.of_nat (fst entry))
    /\ nth_error (hits_ this) (fst entry) = Some (snd entry)
    /\ titled (snd entry) = true).
  { intros [i hit] H. apply filter_In in H as [Hs Hc].
    apply shown_entries_In in Hs. cbn [fst snd] in *.
    split; [| exact Hs].
    destruct (cursor this) as [c |]; [| discriminate Hc].
    cbn in Hc. apply Z.eqb_eq in Hc. congruence. }
  split; [| split; [exact Hin |]].
  - apply NoDup_all_equal.
    + apply (NoDup_map_inv fst), NoDup_map_filter, shown_entries_NoDup.
    + intros [i x] [j y] Hx Hy.
      pose proof (Hin _ Hx) as (Hcx & Hnx & _).
      pose proof (Hin _ Hy) as (Hcy & Hny & _).
      cbn [fst snd] in *. rewrite Hcx in Hcy. injection Hcy as Hij.
      apply Nat2Z.inj in Hij. subst j. congruence.
  - intros Hnil idx hit Hc Hn.
    destruct (titled hit) eqn:Ht; [| reflexivity]. exfalso.
    assert (H : In (idx, hit)
                  (filter (fun entry =>
                     JS.strict_eq (Int (Z.of_nat (fst entry))) (cursor this))
                     (shown_entries (hits_ this)))).
    { apply filter_In. split; [apply shown_entries_In; auto |].
      cbn [fst]. rewrite Hc. cbn. apply Z.eqb_refl. }
    rewrite Hnil in H. exact H.
Qed.

(** X18.  In whatever [render] returns there is at most one element of
    class "web-search-popout__link--active".  When there is one it is the
    link whose id is "web-search-popout__link--" followed by the Cursor,
    it has [aria-selected] "true", the popout is shown and the Cursor is
    the position of a hit with a title.  There is none when the popout is
    hidden or the Cursor is not on a titled hit: then the
    [querySelector] of [scrollHitIntoView] finds nothing. *)
Theorem X18_the_active_link :
  forall (this : SearchResults) (view : Rendered),
    render this = Normal view ->
    (List.length
       (querySelectorAll_class "web-search-popout__link--active" view)
     <= 1)%nat
    /\ match querySelector_class "web-search-popout__link--active" view with
       | Some element =>
           fst element = "a"
           /\ getAttribute "id" (snd element)
              = Some (lit "web-search-popout__link--"
                        ++ JS.ToString (cursor this))
           /\ getAttribute "aria-selected" (snd element) = Some (lit "true")
           /\ showHits this = true
           /\ exists idx hit,
                cursor this = Int (Z.of_nat idx)
                /\ nth_error (hits_ this) idx = Some hit
                /\ titled hit = true
       | None =>
           showHits this = false
           \/ forall idx hit,
                cursor this = Int (Z.of_nat idx) ->
                nth_error (hits_ this) idx = Some hit ->
                titled hit = false
       end.
Proof.
  intros this view Hr.
  destruct (showHits this) eqn:Hshow.
  2:{ rewrite render_hidden in Hr by exact Hshow. injection Hr as <-.
      split; [cbn; lia | left; reflexivity]. }
  destruct (hits_ this) as [| h l] eqn:Ehits.
  { assert (Hnone :
      querySelectorAll_class "web-search-popout__link--active" view = []).
    { unfold render in Hr. rewrite Hshow, Ehits in Hr.
      cbn [negb JS.length List.length Z.of_nat JS.strict_eq Z.eqb] in Hr.
      destruct (query this); [injection Hr as <-; reflexivity |].
      destruct (JS.encodeURIComponent _); [| discriminate Hr].
      injection Hr as <-. reflexivity. }
    unfold querySelector_class. rewrite Hnone.
    split; [cbn; lia |]. right. intros [| idx] hit _ H; discriminate H. }
  assert (Hne : hits_ this <> []) by congruence.
  destruct (render_list_view this view Hshow Hne Hr)
    as (items & nodes & Hitems & -> & Ha & He).
  destruct (items_entries this _ _ _ Hitems) as [HF Hflat].
  fold (shown_entries (hits_ this)) in HF.
  pose proof (selected_entries this) as Hsel. cbv zeta in Hsel.
  set (selected :=
         filter (fun entry =>
                   JS.strict_eq (Int (Z.of_nat (fst entry))) (cursor this))
           (shown_entries (hits_ this))) in *.
  set (active := filter
         (fun a => hasClass "web-search-popout__link--active" (fst a))
         (anchors_of (List.concat items))).
  assert (Hq : querySelectorAll_class "web-search-popout__link--active"
                 (Template nodes)
               = List.map (fun a => ("a", fst a)) active).
  { unfold querySelectorAll_class. rewrite He, Hflat.
    rewrite filter_app. rewrite filter_item_elements by reflexivity.
    reflexivity. }
  assert (HFa : Forall2 (renders_entry this) active selected).
  { apply Forall2_filter; [| exact HF].
    intros a b H. exact (proj1 (proj2 (proj2 (proj2 H)))). }
  destruct Hsel as (Hlen & Hin & Hnil).
  unfold querySelector_class. rewrite Hq.
  split.
  - rewrite length_map, (Forall2_length HFa). exact Hlen.
  - rewrite <- Ehits.
    destruct HFa as [| a entry active' selected' Hae _]; cbn [List.map List.head].
    + right. apply Hnil. reflexivity.
    + destruct (Hin entry (or_introl eq_refl)) as (Hc & Hn & Ht).
      destruct Hae as (Hid & _ & Hsel' & _). cbn [fst snd].
      split; [reflexivity |]. rewrite Hc.
      split; [exact Hid |]. split.
      * rewrite Hsel', Hc. cbn. rewrite Z.eqb_refl. reflexivity.
      * split; [reflexivity |]. exists (fst entry), (snd entry). auto.
Qed.

Lemma X18_witness :
  exists view element,
    render (move First example_popout) = Normal view
    /\ querySelector_class "web-search-popout__link--active" view
       = Some element
    /\ getAttribute "id" (snd element)
       = Some (lit "web-search-popout__link--0")
    /\ exists view',
         render (move Next (move First example_popout)) = Normal view'
         /\ querySelector_class "web-search-popout__link--active" view'
            = None.
Proof.
  destruct (render (move First example_popout)) as [view |] eqn:E;
    [| discriminate E].
  destruct (render (move Next (move First example_popout)))
    as [view' |] eqn:E'; [| discriminate E'].
  pose proof (X18_the_active_link _ _ E) as [_ H].
  pose proof (X18_the_active_link _ _ E') as [_ H'].
  destruct (querySelector_class "web-search-popout__link--active" view)
    as [element |] eqn:Q.
  - exists view, element. split; [reflexivity |]. split; [exact Q |].
    split; [exact (proj1 (proj2 H)) |].
    exists view'. split; [reflexivity |].
    vm_compute in E'. injection E' as <-. reflexivity.
  - exfalso. destruct H as [H | H]; [discriminate H |].
    discriminate (H 0%nat _ eq_refl eq_refl).
Defined.

(** *** The attribute and the view together *)

Lemma list_view_ids this nodes :
  showHits this = true -> hits_ this <> [] ->
  render this = Normal (Template nodes) ->
  ids (Template nodes)
  = List.map
      (fun entry =>
         Some (lit "web-search-popout__link--"
                 ++ JS.ToString (Int (Z.of_nat (fst entry)))))
      (shown_entries (hits_ this)).
Proof.
  intros Hshow Hne Hr.
  destruct (render_list_view this _ Hshow Hne Hr)
    as (items & nodes' & Hitems & E & Ha & _).
  injection E as <-.
  destruct (items_entries this _ _ _ Hitems) as [HF _].
  rewrite <- Ha in HF. unfold ids.
  apply (Forall2_map_eq (renders_entry this)); [| exact HF].
  intros a b H. exact (proj1 H).
Qed.

(** X19.  With the popout shown and the Cursor on a hit, the value that
    [updated] writes into [aria-activedescendant] is the id of a link of
    the view exactly when that hit has a title: on a hit that the list
    skips, the attribute names an element that does not exist. *)
Theorem X19_activedescendant_names_a_link_iff_titled :
  forall (V : Type) (changedProperties : list (string * V))
         (this : SearchResults) (nodes : list Node) (idx : nat) (hit : Hit),
    has changedProperties "cursor" = true ->
    showHits this = true ->
    render this = Normal (Template nodes) ->
    cursor this = Int (Z.of_nat idx) ->
    nth_error (hits_ this) idx = Some hit ->
    aria_activedescendant (updated changedProperties this)
    = Some (lit "web-search-popout__link--" ++ JS.ToString (Int (Z.of_nat idx)))
    /\ (In (aria_activedescendant (updated changedProperties this))
          (ids (Template nodes))
        <-> titled hit = true).
Proof.
  intros V changedProperties this nodes idx hit Hhas Hshow Hr Hc Hn.
  assert (Hne : hits_ this <> []).
  { intros E. rewrite E in Hn. destruct idx; discriminate Hn. }
  assert (Haria :
    aria_activedescendant (updated changedProperties this)
    = Some (lit "web-search-popout__link--"
              ++ JS.ToString (Int (Z.of_nat idx)))).
  { unfold updated. rewrite Hhas, Hc. cbn [negb JS.strict_eq].
    destruct (Z.eqb_spec (Z.of_nat idx) (-1)); [lia | reflexivity]. }
  split; [exact Haria |].
  rewrite Haria, (list_view_ids this nodes Hshow Hne Hr). split.
  - intros H. apply in_map_iff in H as ([i hit'] & Hid & Hin).
    cbn [fst] in Hid. apply link_id_inj in Hid. subst i.
    apply shown_entries_In in Hin as [Hn' Ht]. congruence.
  - intros Ht. apply in_map_iff. exists (idx, hit).
    split; [reflexivity |]. apply shown_entries_In. auto.
Qed.

Lemma X19_witness :
  exists nodes,
    render (move Next (move First example_popout)) = Normal (Template nodes)
    /\ aria_activedescendant
         (updated [("cursor", Int 0)] (move Next (move First example_popout)))
       = Some (lit "web-search-popout__link--1")
    /\ ~ In (Some (lit "web-search-popout__link--1")) (ids (Template nodes)).
Proof.
  destruct (render (move Next (move First example_popout)))
    as [[nodes |] |] eqn:E; try discriminate E.
  destruct (X19_activedescendant_names_a_link_iff_titled _
              [("cursor", Int 0)] (move Next (move First example_popout))
              nodes 1%nat untitled_hit)
    as [Haria Hiff]; try reflexivity; [exact E |].
  exists nodes. split; [reflexivity |]. split; [exact Haria |].
  intros Hin. rewrite Haria in Hiff. apply Hiff in Hin. discriminate Hin.
Defined.
